(** * Leavestack: the component engine and its contexts

    A shallow embedding of [ComponentEngine] and [ComponentContext]
    (src/src/example.ts): the component registry, event publish/subscribe,
    endpoint registration and the call/response correlation protocol with
    its timeout.

    The program runs on one event loop.  Its synchronous blocks ([use],
    [start], [addListener], [send], [addEndpoint], [call], [dispose], a
    promise reaction, a timer callback) are the atomic steps of the model;
    a run is a list of such steps.  The clock is in milliseconds. *)

From Stdlib Require Import List String ZArith Arith Bool Lia Permutation.
Import ListNotations.

Set Warnings "-register-all".

(** ** Values *)

(** The values of type [any] that travel through frames, and [Error]
    objects. *)
Inductive value : Type :=
| VUndefined
| VNull
| VBool (b : bool)
| VNum (n : Z)
| VStr (s : string)
| VObject (fields : list (string * value))
| VError (message : string).

(** [Record<string, any>] *)
Definition Params := list (string * value).

(** Identity of a [ComponentContext] object: its index in the heap of
    contexts. *)
Abbreviation CtxRef := nat (only parsing).

(** Identity of a listener function ([item.listener == listener] compares
    references). *)
Abbreviation ListenerRef := nat (only parsing).

(** Identity of the closure created by one invocation of [call]: the
    promise, its [listener] and its [timeoutHandle]. *)
Abbreviation CallRef := nat (only parsing).

(** Correlation ids.  The generator ([uuid] of package uuid) is external
    and opaque: all that the program relies on is that its tokens do not
    collide.  It is modelled as a supply of tokens that never repeats,
    the counter [uuid_next] of the state. *)
Abbreviation CorrId := nat (only parsing).

(** ** Asynchronous functions *)

(** What the promise returned by an asynchronous function does: it is
    fulfilled with a value or rejected with a reason some milliseconds
    after the function was invoked, or it stays pending for ever.
    Endpoint handlers and component entry points are [async] functions
    (type [=> Promise<_>]): a [throw] in their body is a rejection of the
    promise they return. *)
Inductive Outcome : Type :=
| Resolves (after : nat) (v : value)
| Rejects (after : nat) (reason : value)
| Never.

(** ** Types of the source *)

Record EventFrame := {
  ef_component : string;
  ef_event : string;
  ef_value : value
}.

Record ApiCallFrame := {
  cf_component : string;
  cf_id : CorrId;
  cf_endpoint : string;
  cf_params : Params
}.

Record ApiResultFrame := {
  rf_component : string;
  rf_id : CorrId;
  rf_value : value
}.

Record EndpointContext := { params : Params }.

Definition Handler := EndpointContext -> Outcome.

Record Component := {
  name : string;
  start : CtxRef -> Outcome
}.

Record ComponentEntry := {
  ctx : CtxRef;
  entry_start : unit -> Outcome
}.

Record ParamInfo := {
  param_name : string;
  test : option (value -> bool);
  validator : option value
}.

Record EndpointInfo := {
  info_name : string;
  info_params : list ParamInfo
}.

Record EventHandler := {
  eh_component : string;
  eh_event : string;
  eh_listener : ListenerRef
}.

Record Api := {
  endpoint : string;
  handler : Handler
}.

(** The fields of a [ComponentContext]; [rootEventHandler] and
    [rootApiHandler] are the functions of the same names below, closed
    over the context's reference. *)
Record Context := {
  ctx_name : string;
  eventHandlers : list EventHandler;
  apis : list Api
}.

(** ** Promises and timers of [call] *)

Inductive Slot : Type :=
| Pending
| Resolved (v : value)
| Rejected (reason : value).

(** A timer made by [setTimeout]: armed with its deadline until
    [clearTimeout] or its expiry. *)
Inductive Timer : Type :=
| Armed (deadline : nat)
| Cleared
| Fired.

(** One invocation of [call]; [timeoutHandle] is [None] for [null].
    [resolve_calls] and [reject_calls] count
    how often the promise's [resolve] and [reject] functions were invoked;
    the slot keeps the first settlement, as a JavaScript promise does. *)
Record CallState := {
  call_id : CorrId;
  slot : Slot;
  timeoutHandle : option Timer;
  resolve_calls : nat;
  reject_calls : nat
}.

(** A promise returned by an asynchronous function, with the reactions
    the source attached to it. *)
Inductive JobKind : Type :=
| HandlerJob (responder : CtxRef) (id : CorrId)
| EntryJob (c : CtxRef).

Record Job := {
  job_kind : JobKind;
  job_outcome : Outcome;
  job_invoked : nat;
  job_done : bool
}.

(** What an observer of the process sees. *)
Inductive Obs : Type :=
| ConsoleLog (v : value)
| ListenerInvoked (l : ListenerRef) (v : value)
| EntryInvoked (c : CtxRef)
| HandlerInvoked (c : CtxRef) (ep : string) (p : Params)
| ResultBroadcast (f : ApiResultFrame).

(** The engine, its [EventEmitter], and the heap. *)
Record State := {
  now : nat;
  uuid_next : CorrId;
  contexts : list Context;
  entries : list (string * ComponentEntry);
  on_event : list CtxRef;
  on_api_call : list CtxRef;
  on_api_result : list CallRef;
  calls : list CallState;
  jobs : list Job;
  log : list Obs
}.

Inductive Result (A : Type) : Type :=
| Ok (a : A)
| Throw (e : value).
Arguments Ok {A} a.
Arguments Throw {A} e.

(** ** Assignments to the fields of the state *)

Definition set_now (v : nat) (s : State) : State :=
  {| now := v;
     uuid_next := uuid_next s;
     contexts := contexts s;
     entries := entries s;
     on_event := on_event s;
     on_api_call := on_api_call s;
     on_api_result := on_api_result s;
     calls := calls s;
     jobs := jobs s;
     log := log s |}.

Definition set_uuid_next (v : CorrId) (s : State) : State :=
  {| now := now s;
     uuid_next := v;
     contexts := contexts s;
     entries := entries s;
     on_event := on_event s;
     on_api_call := on_api_call s;
     on_api_result := on_api_result s;
     calls := calls s;
     jobs := jobs s;
     log := log s |}.

Definition set_contexts (v : list Context) (s : State) : State :=
  {| now := now s;
     uuid_next := uuid_next s;
     contexts := v;
     entries := entries s;
     on_event := on_event s;
     on_api_call := on_api_call s;
     on_api_result := on_api_result s;
     calls := calls s;
     jobs := jobs s;
     log := log s |}.

Definition set_entries (v : list (string * ComponentEntry)) (s : State) : State :=
  {| now := now s;
     uuid_next := uuid_next s;
     contexts := contexts s;
     entries := v;
     on_event := on_event s;
     on_api_call := on_api_call s;
     on_api_result := on_api_result s;
     calls := calls s;
     jobs := jobs s;
     log := log s |}.

Definition set_on_event (v : list CtxRef) (s : State) : State :=
  {| now := now s;
     uuid_next := uuid_next s;
     contexts := contexts s;
     entries := entries s;
     on_event := v;
     on_api_call := on_api_call s;
     on_api_result := on_api_result s;
     calls := calls s;
     jobs := jobs s;
     log := log s |}.

Definition set_on_api_call (v : list CtxRef) (s : State) : State :=
  {| now := now s;
     uuid_next := uuid_next s;
     contexts := contexts s;
     entries := entries s;
     on_event := on_event s;
     on_api_call := v;
     on_api_result := on_api_result s;
     calls := calls s;
     jobs := jobs s;
     log := log s |}.

Definition set_on_api_result (v : list CallRef) (s : State) : State :=
  {| now := now s;
     uuid_next := uuid_next s;
     contexts := contexts s;
     entries := entries s;
     on_event := on_event s;
     on_api_call := on_api_call s;
     on_api_result := v;
     calls := calls s;
     jobs := jobs s;
     log := log s |}.

Definition set_calls (v : list CallState) (s : State) : State :=
  {| now := now s;
     uuid_next := uuid_next s;
     contexts := contexts s;
     entries := entries s;
     on_event := on_event s;
     on_api_call := on_api_call s;
     on_api_result := on_api_result s;
     calls := v;
     jobs := jobs s;
     log := log s |}.

Definition set_jobs (v : list Job) (s : State) : State :=
  {| now := now s;
     uuid_next := uuid_next s;
     contexts := contexts s;
     entries := entries s;
     on_event := on_event s;
     on_api_call := on_api_call s;
     on_api_result := on_api_result s;
     calls := calls s;
     jobs := v;
     log := log s |}.

Definition set_log (v : list Obs) (s : State) : State :=
  {| now := now s;
     uuid_next := uuid_next s;
     contexts := contexts s;
     entries := entries s;
     on_event := on_event s;
     on_api_call := on_api_call s;
     on_api_result := on_api_result s;
     calls := calls s;
     jobs := jobs s;
     log := v |}.

(** ** Arrays *)

Fixpoint findIndex_from {A : Type} (p : A -> bool) (l : list A) (i : Z) : Z :=
  match l with
  | [] => (-1)%Z
  | x :: r => if p x then i else findIndex_from p r (i + 1)%Z
  end.

(** [Array.prototype.findIndex]: the index of the first element that
    satisfies [p], or -1. *)
Definition findIndex {A : Type} (p : A -> bool) (l : list A) : Z :=
  findIndex_from p l 0%Z.

(** [Array.prototype.splice(index, 1)]; a negative index counts from the
    end of the array. *)
Definition splice1 {A : Type} (index : Z) (l : list A) : list A :=
  let len := Z.of_nat (List.length l) in
  let from := if (index <? 0)%Z then Z.max (len + index) 0 else Z.min index len in
  firstn (Z.to_nat from) l ++ skipn (S (Z.to_nat from)) l.

(** [array[i] = x] for an index of the array. *)
Fixpoint assign {A : Type} (i : nat) (x : A) (l : list A) : list A :=
  match l, i with
  | [], _ => []
  | _ :: r, O => x :: r
  | y :: r, S j => y :: assign j x r
  end.

(** [object[key] = x]: an own property keeps its place when it is
    overwritten, a new one comes last.  (JavaScript enumerates keys that
    are array indices before the others; component names are not told
    apart here, and no statement depends on the order of enumeration
    beyond its being the order of [entries].) *)
Fixpoint assign_key {A : Type} (key : string) (x : A) (o : list (string * A))
  : list (string * A) :=
  match o with
  | [] => [(key, x)]
  | (k, y) :: r =>
      if String.eqb k key then (k, x) :: r else (k, y) :: assign_key key x r
  end.


(** ** The event emitter

    [engine.event] is Node's [EventEmitter].  The state keeps its three
    listener arrays: the root handlers of the contexts under 'event' and
    'api-call', the one-time listeners of the pending calls under
    'api-result'.  [emit] calls the listeners of a copy of the array, in
    the order they were added. *)

Definition emitter_addListener (l : list nat) (x : nat) : list nat := l ++ [x].

(** [removeListener] removes the most recently added instance of the
    listener, and nothing when there is none. *)
Fixpoint emitter_removeListener (x : nat) (l : list nat) : list nat :=
  match l with
  | [] => []
  | y :: r =>
      if Nat.eqb x y && negb (existsb (Nat.eqb x) r) then r
      else y :: emitter_removeListener x r
  end.

(** ** ComponentContext *)

Definition get_context (s : State) (c : CtxRef) : option Context :=
  nth_error (contexts s) c.

Definition put_context (c : CtxRef) (x : Context) (s : State) : State :=
  set_contexts (assign c x (contexts s)) s.

Definition observe (o : Obs) (s : State) : State :=
  set_log (log s ++ [o]) s.

(** [this.rootEventHandler] of context [c]. *)
Definition rootEventHandler (c : CtxRef) (frame : EventFrame) (s : State) : State :=
  match get_context s c with
  | None => s
  | Some this =>
      let listeners :=
        filter (fun item =>
                  String.eqb (eh_component item) (ef_component frame)
                  && String.eqb (eh_event item) (ef_event frame))
               (eventHandlers this) in
      fold_left (fun s listener =>
                   observe (ListenerInvoked (eh_listener listener) (ef_value frame)) s)
                listeners s
  end.

(** [this.rootApiHandler] of context [c].  The handler's promise, with
    its [then] and [catch] reactions, becomes a job. *)
Definition rootApiHandler (c : CtxRef) (frame : ApiCallFrame) (s : State) : State :=
  match get_context s c with
  | None => s
  | Some this =>
      if negb (String.eqb (cf_component frame) (ctx_name this)) then s
      else
        match find (fun item => String.eqb (endpoint item) (cf_endpoint frame))
                   (apis this) with
        | None => s
        | Some api =>
            let promise := handler api {| params := cf_params frame |} in
            set_jobs (jobs s ++ [{| job_kind := HandlerJob c (cf_id frame);
                                    job_outcome := promise;
                                    job_invoked := now s;
                                    job_done := false |}])
                     (observe (HandlerInvoked c (cf_endpoint frame) (cf_params frame)) s)
        end
  end.

(** [engine.event.emit('event', frame)] *)
Definition emit_event (frame : EventFrame) (s : State) : State :=
  fold_left (fun s c => rootEventHandler c frame s) (on_event s) s.

(** [engine.event.emit('api-call', frame)] *)
Definition emit_api_call (frame : ApiCallFrame) (s : State) : State :=
  fold_left (fun s c => rootApiHandler c frame s) (on_api_call s) s.

Definition getListenerIndex (this : Context) (component event : string)
           (listener : ListenerRef) : Z :=
  findIndex (fun item =>
               String.eqb (eh_component item) component
               && String.eqb (eh_event item) event
               && Nat.eqb (eh_listener item) listener)
            (eventHandlers this).

Definition addListener (c : CtxRef) (component event : string)
           (listener : ListenerRef) (s : State) : State :=
  match get_context s c with
  | None => s
  | Some this =>
      if negb (getListenerIndex this component event listener =? -1)%Z then s
      else
        put_context c
          {| ctx_name := ctx_name this;
             eventHandlers := eventHandlers this
                              ++ [{| eh_component := component;
                                     eh_event := event;
                                     eh_listener := listener |}];
             apis := apis this |} s
  end.

Definition removeListener (c : CtxRef) (component event : string)
           (listener : ListenerRef) (s : State) : State :=
  match get_context s c with
  | None => s
  | Some this =>
      let index := getListenerIndex this component event listener in
      if (index =? -1)%Z then s
      else
        put_context c
          {| ctx_name := ctx_name this;
             eventHandlers := splice1 index (eventHandlers this);
             apis := apis this |} s
  end.

Definition send (c : CtxRef) (event : string) (v : value) (s : State) : State :=
  match get_context s c with
  | None => s
  | Some this =>
      let frame := {| ef_component := ctx_name this;
                      ef_event := event;
                      ef_value := v |} in
      emit_event frame s
  end.

Definition addEndpoint (c : CtxRef) (info : EndpointInfo) (h : Handler)
           (s : State) : Result State :=
  match get_context s c with
  | None => Ok s
  | Some this =>
      let index :=
        findIndex (fun item => String.eqb (endpoint item) (info_name info))
                  (apis this) in
      if negb (index =? -1)%Z then
        Throw (VError "endpoint name is already used.")
      else
        Ok (put_context c
              {| ctx_name := ctx_name this;
                 eventHandlers := eventHandlers this;
                 apis := apis this ++ [{| endpoint := info_name info;
                                          handler := h |}] |} s)
  end.

Definition removeEndpoint (c : CtxRef) (nm : string) (s : State) : Result State :=
  match get_context s c with
  | None => Ok s
  | Some this =>
      let index :=
        findIndex (fun item => String.eqb (endpoint item) nm) (apis this) in
      if (index =? -1)%Z then
        Throw (VError "endpoint is not found.")
      else
        Ok (put_context c
              {| ctx_name := ctx_name this;
                 eventHandlers := eventHandlers this;
                 apis := splice1 index (apis this) |} s)
  end.

Definition dispose (c : CtxRef) (s : State) : State :=
  set_on_api_call (emitter_removeListener c (on_api_call s))
    (set_on_event (emitter_removeListener c (on_event s)) s).

(** ** The promise of [call] *)

Definition put_call (k : CallRef) (x : CallState) (s : State) : State :=
  set_calls (assign k x (calls s)) s.

(** [resolve(v)]: a promise that is already settled stays as it is. *)
Definition resolve (v : value) (p : CallState) : CallState :=
  {| call_id := call_id p;
     slot := match slot p with Pending => Resolved v | settled => settled end;
     timeoutHandle := timeoutHandle p;
     resolve_calls := S (resolve_calls p);
     reject_calls := reject_calls p |}.

(** [reject(reason)] *)
Definition reject (reason : value) (p : CallState) : CallState :=
  {| call_id := call_id p;
     slot := match slot p with Pending => Rejected reason | settled => settled end;
     timeoutHandle := timeoutHandle p;
     resolve_calls := resolve_calls p;
     reject_calls := S (reject_calls p) |}.

Definition set_timeoutHandle (t : option Timer) (p : CallState) : CallState :=
  {| call_id := call_id p;
     slot := slot p;
     timeoutHandle := t;
     resolve_calls := resolve_calls p;
     reject_calls := reject_calls p |}.

(** [clearTimeout(handle)]: an armed timer is cancelled, any other is
    left as it is. *)
Definition clearTimeout (t : Timer) : Timer :=
  match t with
  | Armed _ => Cleared
  | other => other
  end.

(** The function [listener] of call [k]. *)
Definition listener (k : CallRef) (resultFrame : ApiResultFrame) (s : State) : State :=
  match nth_error (calls s) k with
  | None => s
  | Some p =>
      if negb (Nat.eqb (rf_id resultFrame) (call_id p)) then s
      else
        let p1 := match timeoutHandle p with
                  | Some t => set_timeoutHandle (Some (clearTimeout t)) p
                  | None => p
                  end in
        put_call k (resolve (rf_value resultFrame) p1) s
  end.

(** The wrapper that [once] registers in place of [listener]: at the
    next 'api-result' it removes itself and then calls [listener]. *)
Definition onceWrapper (k : CallRef) (resultFrame : ApiResultFrame) (s : State) : State :=
  listener k resultFrame
    (set_on_api_result (emitter_removeListener k (on_api_result s)) s).

(** [engine.event.emit('api-result', frame)] *)
Definition emit_api_result (frame : ApiResultFrame) (s : State) : State :=
  fold_left (fun s k => onceWrapper k frame s) (on_api_result s)
            (observe (ResultBroadcast frame) s).

(** The callback that [call] passes to [setTimeout]. *)
Definition timeout_callback (k : CallRef) (s : State) : State :=
  let s1 := set_on_api_result (emitter_removeListener k (on_api_result s)) s in
  match nth_error (calls s1) k with
  | None => s1
  | Some p =>
      put_call k (reject (VError "timeout") (set_timeoutHandle (Some Fired) p)) s1
  end.

(** [call(component, endpoint, params, timeout)].  The result is the new
    state and the reference of the promise returned.  [this] only serves
    to reach the engine's emitter. *)
Definition call (component endpoint : string) (params0 : option Params)
           (timeout0 : option nat) (s : State) : State * CallRef :=
  let params1 := match params0 with Some p => p | None => [] end in
  let timeout := match timeout0 with Some t => t | None => 1000 end in
  let id := uuid_next s in
  let k := List.length (calls s) in
  let s1 := set_uuid_next (S id) s in
  let s2 := set_calls (calls s1 ++ [{| call_id := id;
                                       slot := Pending;
                                       timeoutHandle := None;
                                       resolve_calls := 0;
                                       reject_calls := 0 |}]) s1 in
  let s3 := set_on_api_result (emitter_addListener (on_api_result s2) k) s2 in
  let s4 := match nth_error (calls s3) k with
            | None => s3
            | Some p =>
                put_call k (set_timeoutHandle (Some (Armed (now s3 + timeout))) p) s3
            end in
  let callFrame := {| cf_component := component;
                      cf_id := id;
                      cf_endpoint := endpoint;
                      cf_params := params1 |} in
  (emit_api_call callFrame s4, k).

(** ** ComponentEngine *)

(** [new ComponentContext(engine, name)]: the constructor subscribes the
    two root handlers of the new context. *)
Definition new_context (nm : string) (s : State) : State * CtxRef :=
  let c := List.length (contexts s) in
  let s1 := set_contexts (contexts s ++ [{| ctx_name := nm;
                                            eventHandlers := [];
                                            apis := [] |}]) s in
  let s2 := set_on_event (emitter_addListener (on_event s1) c) s1 in
  let s3 := set_on_api_call (emitter_addListener (on_api_call s2) c) s2 in
  (s3, c).

Definition registerEntry (component : Component) (s : State) : State :=
  let (s1, c) := new_context (name component) s in
  let entry := {| ctx := c;
                  entry_start := fun _ => start component c |} in
  set_entries (assign_key (name component) entry (entries s1)) s1.

Definition use (component : Component) (s : State) : State :=
  registerEntry component s.

(** One turn of the loop of [start]: [entry.start()] is invoked and its
    promise, with the [catch] reaction, becomes a job. *)
Definition start_entry (s : State) (e : string * ComponentEntry) : State :=
  let entry := snd e in
  let promise := entry_start entry tt in
  set_jobs (jobs s ++ [{| job_kind := EntryJob (ctx entry);
                          job_outcome := promise;
                          job_invoked := now s;
                          job_done := false |}])
           (observe (EntryInvoked (ctx entry)) s).

Definition engine_start (s : State) : State :=
  fold_left start_entry (entries s) s.

(** ** The event loop *)

Definition settles_at (j : Job) : option nat :=
  match job_outcome j with
  | Resolves after _ => Some (job_invoked j + after)
  | Rejects after _ => Some (job_invoked j + after)
  | Never => None
  end.

Definition job_due (t : nat) (j : Job) : bool :=
  negb (job_done j)
  && match settles_at j with
     | Some d => d <=? t
     | None => false
     end.

Definition timer_due (t : nat) (p : CallState) : bool :=
  match timeoutHandle p with
  | Some (Armed deadline) => deadline <=? t
  | _ => false
  end.

Definition finish_job (j : nat) (x : Job) (s : State) : State :=
  set_jobs (assign j {| job_kind := job_kind x;
                        job_outcome := job_outcome x;
                        job_invoked := job_invoked x;
                        job_done := true |} (jobs s)) s.

(** The promise of job [j] settles and its reaction runs: for a handler
    the [then] callback of [rootApiHandler], which broadcasts the result
    frame, or its [catch] callback; for an entry point the [catch]
    callback of [start]. *)
Definition settle (j : nat) (s : State) : State :=
  match nth_error (jobs s) j with
  | None => s
  | Some x =>
      if negb (job_due (now s) x) then s
      else
        let s1 := finish_job j x s in
        match job_outcome x, job_kind x with
        | Resolves _ result, HandlerJob c id =>
            match get_context s1 c with
            | None => s1
            | Some this =>
                let resultFrame := {| rf_component := ctx_name this;
                                      rf_id := id;
                                      rf_value := result |} in
                emit_api_result resultFrame s1
            end
        | Resolves _ _, EntryJob _ => s1
        | Rejects _ err, _ => observe (ConsoleLog err) s1
        | Never, _ => s1
        end
  end.

(** The timer of call [k] expires. *)
Definition expire (k : CallRef) (s : State) : State :=
  match nth_error (calls s) k with
  | None => s
  | Some p => if timer_due (now s) p then timeout_callback k s else s
  end.

(** A millisecond passes, unless a timer or a promise is due now. *)
Definition tick (s : State) : State :=
  if existsb (timer_due (now s)) (calls s) || existsb (job_due (now s)) (jobs s)
  then s
  else set_now (S (now s)) s.

Inductive Action : Type :=
| Use (component : Component)
| Start
| AddListener (c : CtxRef) (component event : string) (l : ListenerRef)
| RemoveListener (c : CtxRef) (component event : string) (l : ListenerRef)
| Send (c : CtxRef) (event : string) (v : value)
| AddEndpoint (c : CtxRef) (info : EndpointInfo) (h : Handler)
| RemoveEndpoint (c : CtxRef) (nm : string)
| Call (component endpoint : string) (params0 : option Params) (timeout0 : option nat)
| Dispose (c : CtxRef)
| Settle (j : nat)
| Expire (k : CallRef)
| Tick.

(** One synchronous block, which either runs to its end or throws. *)
Definition exec (a : Action) (s : State) : Result State :=
  match a with
  | Use component => Ok (use component s)
  | Start => Ok (engine_start s)
  | AddListener c component event l => Ok (addListener c component event l s)
  | RemoveListener c component event l => Ok (removeListener c component event l s)
  | Send c event v => Ok (send c event v s)
  | AddEndpoint c info h => addEndpoint c info h s
  | RemoveEndpoint c nm => removeEndpoint c nm s
  | Call component endpoint params0 timeout0 =>
      Ok (fst (call component endpoint params0 timeout0 s))
  | Dispose c => Ok (dispose c s)
  | Settle j => Ok (settle j s)
  | Expire k => Ok (expire k s)
  | Tick => Ok (tick s)
  end.

(** A block that throws leaves the state as its caller found it. *)
Definition step (s : State) (a : Action) : State :=
  match exec a s with
  | Ok s' => s'
  | Throw _ => s
  end.

Definition run (s : State) (acts : list Action) : State :=
  fold_left step acts s.

(** [new ComponentEngine()] at time 0. *)
Definition new_engine : State :=
  {| now := 0;
     uuid_next := 0;
     contexts := [];
     entries := [];
     on_event := [];
     on_api_call := [];
     on_api_result := [];
     calls := [];
     jobs := [];
     log := [] |}.

Definition slot_of (s : State) (k : CallRef) : option Slot :=
  option_map slot (nth_error (calls s) k).

(** ** The example system

    The two components of the example: [users] publishes the endpoint
    [getUser], [notes] calls it.  What their entry points do with their
    contexts appears in a run as the steps that follow [Start]. *)

Definition example_user : value :=
  VObject [("id"%string, VStr "4c1f"); ("name"%string, VStr "abc");
           ("description"%string, VStr "hello")].

Definition UsersComponent : Component :=
  {| name := "users"; start := fun _ => Resolves 0 VUndefined |}.

Definition NotesComponent : Component :=
  {| name := "notes"; start := fun _ => Never |}.

Definition getUser_info : EndpointInfo :=
  {| info_name := "getUser"; info_params := [] |}.

Definition getUser : Handler := fun _ => Resolves 0 example_user.

(** The engine of the example once [users] has published [getUser]:
    context 0 is that of [notes], context 1 that of [users]. *)
Definition example_engine : State :=
  run new_engine [Use NotesComponent; Use UsersComponent; Start; Settle 1;
                  AddEndpoint 1 getUser_info getUser].



(** An engine in which [users] serves [getUser] with a handler that
    throws. *)
Definition throwing_handler : Handler :=
  fun _ => Rejects 0 (VError "no such user").


Definition two_calls : State :=
  run example_engine [Call "users" "getUser" None None;
                      Call "users" "getUser" None None].

(** The run in which [notes] issues two calls of [getUser] in one
    synchronous block, both handler promises resolve at once, and the
    clock then runs to the deadline of the second call. *)
Definition concurrent_run : list Action :=
  [Call "users" "getUser" None None; Call "users" "getUser" None None;
   Settle 2; Settle 3]
  ++ repeat Tick 1000 ++ [Expire 1].

(** ** What a step does, as equations

    The jobs and observations that the loops of the source produce,
    written as maps over the lists they walk. *)

Definition entry_job (t : nat) (e : string * ComponentEntry) : Job :=
  {| job_kind := EntryJob (ctx (snd e));
     job_outcome := entry_start (snd e) tt;
     job_invoked := t;
     job_done := false |}.

(** The registrations of listener [l] for ([component], [event]) on a
    context: the elements that [getListenerIndex] looks for. *)
Definition registrations (component event : string) (l : ListenerRef)
           (this : Context) : list EventHandler :=
  filter (fun item =>
            String.eqb (eh_component item) component
            && String.eqb (eh_event item) event
            && Nat.eqb (eh_listener item) l)
         (eventHandlers this).


(** What one context delivers for a frame. *)
Definition delivered (frame : EventFrame) (this : Context) : list Obs :=
  map (fun item => ListenerInvoked (eh_listener item) (ef_value frame))
      (filter (fun item =>
                 String.eqb (eh_component item) (ef_component frame)
                 && String.eqb (eh_event item) (ef_event frame))
              (eventHandlers this)).

Definition delivered_by (s : State) (frame : EventFrame) (c : CtxRef) : list Obs :=
  match get_context s c with
  | Some this => delivered frame this
  | None => []
  end.

Fixpoint remove_first {A : Type} (p : A -> bool) (l : list A) : list A :=
  match l with
  | [] => []
  | x :: r => if p x then r else x :: remove_first p r
  end.

Fixpoint index_of {A : Type} (p : A -> bool) (l : list A) : nat :=
  match l with
  | [] => 0
  | x :: r => if p x then 0 else S (index_of p r)
  end.

(** What [rootApiHandler] of context [c] finds for a call frame: the
    endpoint it will serve, if the frame is for this component and the
    endpoint is registered. *)
Definition responder (s : State) (frame : ApiCallFrame) (c : CtxRef) : list (CtxRef * Api) :=
  match get_context s c with
  | None => []
  | Some this =>
      if negb (String.eqb (cf_component frame) (ctx_name this)) then []
      else
        match find (fun item => String.eqb (endpoint item) (cf_endpoint frame))
                   (apis this) with
        | None => []
        | Some api => [(c, api)]
        end
  end.

Definition responders (s : State) (frame : ApiCallFrame) : list (CtxRef * Api) :=
  flat_map (responder s frame) (on_api_call s).

Definition handler_job (t : nat) (frame : ApiCallFrame) (r : CtxRef * Api) : Job :=
  {| job_kind := HandlerJob (fst r) (cf_id frame);
     job_outcome := handler (snd r) {| params := cf_params frame |};
     job_invoked := t;
     job_done := false |}.

Definition handler_obs (frame : ApiCallFrame) (r : CtxRef * Api) : Obs :=
  HandlerInvoked (fst r) (cf_endpoint frame) (cf_params frame).

(** The call record that [call] makes, once its timer is armed. *)
Definition new_call (s : State) (timeout : nat) : CallState :=
  {| call_id := uuid_next s;
     slot := Pending;
     timeoutHandle := Some (Armed (now s + timeout));
     resolve_calls := 0;
     reject_calls := 0 |}.

Definition call_frame (s : State) (component ep : string) (params0 : option Params)
  : ApiCallFrame :=
  {| cf_component := component;
     cf_id := uuid_next s;
     cf_endpoint := ep;
     cf_params := match params0 with Some p => p | None => [] end |}.

Definition timeout_of (timeout0 : option nat) : nat :=
  match timeout0 with Some t => t | None => 1000 end.

(** The state in which [call] broadcasts its frame. *)
Definition call_registered (s : State) (timeout : nat) : State :=
  set_calls (calls s ++ [new_call s timeout])
    (set_on_api_result (on_api_result s ++ [List.length (calls s)])
       (set_uuid_next (S (uuid_next s)) s)).

(** A state that differs from [s] by the pending calls and the listeners
    of 'api-result' at most. *)
Definition same_but_calls (s s' : State) : Prop :=
  exists cs ls,
    s' = set_calls cs (set_on_api_result ls s)
    /\ List.length cs = List.length (calls s).

(** A step is quiet when it leaves the pending calls, the listeners of
    'api-result', the clock and the id supply as they are, starts no
    handler and broadcasts no result frame. *)
Definition quiet (s s' : State) : Prop :=
  calls s' = calls s
  /\ on_api_result s' = on_api_result s
  /\ now s' = now s
  /\ uuid_next s' = uuid_next s
  /\ (exists js, jobs s' = jobs s ++ js
                 /\ Forall (fun x => exists c, job_kind x = EntryJob c) js)
  /\ (exists lg, log s' = log s ++ lg
                 /\ Forall (fun o => forall f, o <> ResultBroadcast f) lg).

(** ** Invariants *)


(** The heap of contexts is well formed when every context is subscribed
    at most once under each event of the emitter, the subscriptions and
    the registry refer to contexts of the heap, and no context holds the
    same (component, event, listener) registration twice. *)
Definition heap_wf (s : State) : Prop :=
  NoDup (on_event s)
  /\ NoDup (on_api_call s)
  /\ Forall (fun c => c < List.length (contexts s)) (on_event s)
  /\ Forall (fun c => c < List.length (contexts s)) (on_api_call s)
  /\ Forall (fun e => ctx (snd e) < List.length (contexts s)) (entries s)
  /\ Forall (fun this => forall src ev l,
                          List.length (registrations src ev l this) <= 1)
            (contexts s).

Definition timeout_error : value := VError "timeout".




(** The endpoint names of each context are pairwise distinct. *)
Definition apis_wf (s : State) : Prop :=
  Forall (fun this => NoDup (map endpoint (apis this))) (contexts s).



(** The steps that are operations on the registry, the listeners and
    the endpoints of the contexts, as opposed to [call], the completion
    of a handler, the expiry of a timer and the passing of time. *)
Definition context_operation (a : Action) : bool :=
  match a with
  | Call _ _ _ _ | Settle _ | Expire _ | Tick => false
  | _ => true
  end.

(** * Properties *)

(** ** Arrays *)

Lemma findIndex_from_found {A : Type} (p : A -> bool) (l : list A) (i : Z) (x : A) :
  find p l = Some x -> (i <= findIndex_from p l i)%Z.
Proof.
  revert i. induction l as [|y r IH]; intros i H; simpl in *.
  - discriminate.
  - destruct (p y).
    + lia.
    + specialize (IH (i + 1)%Z H). lia.
Qed.

Lemma findIndex_from_absent {A : Type} (p : A -> bool) (l : list A) (i : Z) :
  find p l = None -> findIndex_from p l i = (-1)%Z.
Proof.
  revert i. induction l as [|y r IH]; intros i H; simpl in *.
  - reflexivity.
  - destruct (p y); [discriminate | now apply IH].
Qed.

Lemma findIndex_found {A : Type} (p : A -> bool) (l : list A) (x : A) :
  find p l = Some x -> (findIndex p l =? -1)%Z = false.
Proof.
  intros H. apply Z.eqb_neq. unfold findIndex.
  pose proof (findIndex_from_found p l 0%Z x H). lia.
Qed.

Lemma findIndex_absent {A : Type} (p : A -> bool) (l : list A) :
  find p l = None -> (findIndex p l =? -1)%Z = true.
Proof.
  intros H. apply Z.eqb_eq. now apply findIndex_from_absent.
Qed.

Lemma find_app_absent {A : Type} (p : A -> bool) (l r : list A) :
  find p l = None -> find p (l ++ r) = find p r.
Proof.
  induction l as [|y t IH]; simpl; auto.
  destruct (p y); [discriminate | exact IH].
Qed.

Lemma assign_length {A : Type} (i : nat) (x : A) (l : list A) :
  List.length (assign i x l) = List.length l.
Proof.
  revert i. induction l as [|y r IH]; intros [|j]; simpl; auto.
Qed.

Lemma nth_error_assign_same {A : Type} (i : nat) (x y : A) (l : list A) :
  nth_error l i = Some y -> nth_error (assign i x l) i = Some x.
Proof.
  revert i. induction l as [|z r IH]; intros [|j] H; simpl in *;
    try discriminate; auto.
Qed.

Lemma nth_error_assign_other {A : Type} (i j : nat) (x : A) (l : list A) :
  i <> j -> nth_error (assign i x l) j = nth_error l j.
Proof.
  revert i j. induction l as [|z r IH]; intros [|i] [|j] H; simpl; auto;
    congruence.
Qed.

(** ** The emitter's [removeListener] *)

Lemma existsb_eqb_count (x : nat) (l : list nat) :
  existsb (Nat.eqb x) l = negb (count_occ Nat.eq_dec l x =? 0).
Proof.
  induction l as [|y r IH]; simpl; auto.
  destruct (Nat.eq_dec y x) as [->|N].
  - now rewrite Nat.eqb_refl.
  - rewrite IH. destruct (Nat.eqb_spec x y); [congruence | reflexivity].
Qed.

Lemma removeListener_count_same (x : nat) (l : list nat) :
  count_occ Nat.eq_dec (emitter_removeListener x l) x
  = pred (count_occ Nat.eq_dec l x).
Proof.
  induction l as [|y r IH]; simpl; auto.
  rewrite existsb_eqb_count.
  destruct (Nat.eqb_spec x y) as [->|N]; simpl.
  - destruct (Nat.eq_dec y y) as [_|]; [|congruence].
    destruct (count_occ Nat.eq_dec r y =? 0) eqn:E; simpl.
    + reflexivity.
    + destruct (Nat.eq_dec y y) as [_|]; [|congruence].
      apply Nat.eqb_neq in E. rewrite IH. lia.
  - destruct (Nat.eq_dec y x); [congruence | apply IH].
Qed.


Lemma removeListener_others (x : nat) (l : list nat) :
  filter (fun y => negb (Nat.eqb y x)) (emitter_removeListener x l)
  = filter (fun y => negb (Nat.eqb y x)) l.
Proof.
  induction l as [|z r IH]; simpl; auto.
  destruct (Nat.eqb x z && negb (existsb (Nat.eqb x) r)) eqn:E; simpl.
  - apply andb_true_iff in E as [E _]. apply Nat.eqb_eq in E. subst z.
    now rewrite Nat.eqb_refl.
  - rewrite IH. reflexivity.
Qed.

Lemma removeListener_absent (x : nat) (l : list nat) :
  ~ In x l -> emitter_removeListener x l = l.
Proof.
  induction l as [|z r IH]; simpl; intros H; auto.
  destruct (Nat.eqb_spec x z) as [->|N]; simpl.
  - exfalso. apply H. now left.
  - rewrite IH; auto.
Qed.

Lemma removeListener_incl (x y : nat) (l : list nat) :
  In y (emitter_removeListener x l) -> In y l.
Proof.
  induction l as [|z r IH]; simpl; auto.
  destruct (Nat.eqb x z && negb (existsb (Nat.eqb x) r)); simpl; intuition.
Qed.

(** ** Endpoint registration *)

(** C6: [addEndpoint] with a name that is already registered on the
    context throws the duplicate-endpoint error and leaves the state, so
    the context's endpoint list, as it was; a call frame for that name is
    still served by the handler registered first. *)
Theorem addEndpoint_duplicate_rejected :
  forall (s : State) (c : CtxRef) (this : Context) (info : EndpointInfo)
         (second : Handler) (first : Api),
    get_context s c = Some this ->
    find (fun item => String.eqb (endpoint item) (info_name info)) (apis this)
    = Some first ->
    addEndpoint c info second s = Throw (VError "endpoint name is already used.")
    /\ step s (AddEndpoint c info second) = s
    /\ option_map apis (get_context (step s (AddEndpoint c info second)) c)
       = Some (apis this)
    /\ forall frame : ApiCallFrame,
        cf_component frame = ctx_name this ->
        cf_endpoint frame = info_name info ->
        jobs (rootApiHandler c frame (step s (AddEndpoint c info second)))
        = jobs s ++ [{| job_kind := HandlerJob c (cf_id frame);
                        job_outcome := handler first {| params := cf_params frame |};
                        job_invoked := now s;
                        job_done := false |}].
Proof.
  intros s c this info second first Hc Hfind.
  assert (Hthrow : addEndpoint c info second s
                   = Throw (VError "endpoint name is already used.")).
  { unfold addEndpoint. rewrite Hc. cbv zeta.
    rewrite (findIndex_found _ _ _ Hfind). reflexivity. }
  assert (Hstep : step s (AddEndpoint c info second) = s).
  { unfold step, exec. now rewrite Hthrow. }
  rewrite Hstep. repeat split; auto.
  - now rewrite Hc.
  - intros frame Hn He. unfold rootApiHandler. rewrite Hc, Hn, He.
    rewrite String.eqb_refl. simpl. rewrite Hfind. reflexivity.
Qed.

Lemma addEndpoint_duplicate_rejected_witness :
  step example_engine (AddEndpoint 1 getUser_info (fun _ => Never)) = example_engine.
Proof.
  exact (proj1 (proj2 (addEndpoint_duplicate_rejected
                         example_engine 1
                         {| ctx_name := "users"; eventHandlers := [];
                            apis := [{| endpoint := "getUser";
                                        handler := getUser |}] |}
                         getUser_info (fun _ => Never)
                         {| endpoint := "getUser"; handler := getUser |}
                         eq_refl eq_refl))).
Defined.

(** The handler that a successful [addEndpoint] registers is the one
    found for its name afterwards. *)
Lemma addEndpoint_registers :
  forall (s s' : State) (c : CtxRef) (this : Context) (info : EndpointInfo) (h : Handler),
    get_context s c = Some this ->
    addEndpoint c info h s = Ok s' ->
    exists this', get_context s' c = Some this'
      /\ ctx_name this' = ctx_name this
      /\ find (fun item => String.eqb (endpoint item) (info_name info)) (apis this')
         = Some {| endpoint := info_name info; handler := h |}.
Proof.
  intros s s' c this info h Hc H. unfold addEndpoint in H. rewrite Hc in H.
  cbv zeta in H.
  destruct (find (fun item => String.eqb (endpoint item) (info_name info)) (apis this))
    as [a|] eqn:F.
  - rewrite (findIndex_found _ _ _ F) in H. discriminate.
  - rewrite (findIndex_absent _ _ F) in H. simpl in H. inversion H; subst s'.
    eexists. split.
    + unfold get_context, put_context. simpl.
      eapply nth_error_assign_same. exact Hc.
    + split; [reflexivity|]. simpl. rewrite (find_app_absent _ _ _ F). simpl.
      now rewrite String.eqb_refl.
Qed.

(** ** Disposal *)

(** C9: [dispose] takes one subscription of the context out of the
    listeners of 'event' and one out of those of 'api-call', leaves the
    subscriptions of every other context in place and in order, and
    changes nothing else: the heap of contexts, with each context's
    endpoint list and listener list, is the same. *)
Theorem dispose_removes_only_subscriptions :
  forall (s : State) (c : CtxRef),
    contexts (dispose c s) = contexts s
    /\ option_map apis (get_context (dispose c s) c) = option_map apis (get_context s c)
    /\ count_occ Nat.eq_dec (on_event (dispose c s)) c
       = pred (count_occ Nat.eq_dec (on_event s) c)
    /\ count_occ Nat.eq_dec (on_api_call (dispose c s)) c
       = pred (count_occ Nat.eq_dec (on_api_call s) c)
    /\ filter (fun c' => negb (Nat.eqb c' c)) (on_event (dispose c s))
       = filter (fun c' => negb (Nat.eqb c' c)) (on_event s)
    /\ filter (fun c' => negb (Nat.eqb c' c)) (on_api_call (dispose c s))
       = filter (fun c' => negb (Nat.eqb c' c)) (on_api_call s)
    /\ on_api_result (dispose c s) = on_api_result s
    /\ entries (dispose c s) = entries s
    /\ calls (dispose c s) = calls s
    /\ jobs (dispose c s) = jobs s
    /\ log (dispose c s) = log s
    /\ now (dispose c s) = now s
    /\ uuid_next (dispose c s) = uuid_next s.
Proof.
  intros s c. unfold dispose, get_context. simpl.
  repeat split;
    auto using removeListener_count_same, removeListener_others.
Qed.

(** ** Settled promises *)


(** ** Engine start *)

Lemma start_loop :
  forall (es : list (string * ComponentEntry)) (s : State),
    fold_left start_entry es s
    = set_jobs (jobs s ++ map (entry_job (now s)) es)
        (set_log (log s ++ map (fun e => EntryInvoked (ctx (snd e))) es) s).
Proof.
  induction es as [|e es IH]; intros s; simpl.
  - rewrite !app_nil_r. destruct s; reflexivity.
  - rewrite IH. unfold start_entry, observe, set_jobs, set_log, entry_job. simpl.
    rewrite <- !app_assoc. reflexivity.
Qed.



(** ** Event listeners *)

Lemma findIndex_from_index {A : Type} (p : A -> bool) (l : list A) (i : Z) (x : A) :
  find p l = Some x ->
  findIndex_from p l i = (i + Z.of_nat (index_of p l))%Z
  /\ index_of p l < List.length l.
Proof.
  revert i. induction l as [|y r IH]; intros i H; simpl in *.
  - discriminate.
  - destruct (p y).
    + split; lia.
    + destruct (IH (i + 1)%Z H) as [E L]. rewrite E. split; lia.
Qed.

Lemma firstn_skipn_remove_first {A : Type} (p : A -> bool) (l : list A) :
  firstn (index_of p l) l ++ skipn (S (index_of p l)) l = remove_first p l.
Proof.
  induction l as [|y r IH]; simpl; auto.
  destruct (p y); simpl.
  - reflexivity.
  - f_equal. exact IH.
Qed.

Lemma splice_findIndex {A : Type} (p : A -> bool) (l : list A) (x : A) :
  find p l = Some x -> splice1 (findIndex p l) l = remove_first p l.
Proof.
  intros H. destruct (findIndex_from_index p l 0%Z x H) as [E L].
  unfold splice1, findIndex. rewrite E. simpl.
  destruct (Z.ltb_spec (Z.of_nat (index_of p l)) 0); [lia|].
  rewrite Z.min_l by lia. rewrite Nat2Z.id.
  apply firstn_skipn_remove_first.
Qed.


Lemma find_none_filter {A : Type} (p : A -> bool) (l : list A) :
  find p l = None -> filter p l = [].
Proof.
  induction l as [|y r IH]; simpl; auto.
  destruct (p y); [discriminate | exact IH].
Qed.

Lemma find_some_filter {A : Type} (p : A -> bool) (l : list A) (x : A) :
  find p l = Some x -> 1 <= List.length (filter p l).
Proof.
  induction l as [|y r IH]; simpl; [discriminate|].
  destruct (p y); simpl; [lia | exact IH].
Qed.




Lemma rootEventHandler_log (c : CtxRef) (frame : EventFrame) (s : State) :
  rootEventHandler c frame s = set_log (log s ++ delivered_by s frame c) s.
Proof.
  unfold rootEventHandler, delivered_by.
  destruct (get_context s c) as [this|].
  - unfold delivered.
    generalize (filter (fun item =>
                          String.eqb (eh_component item) (ef_component frame)
                          && String.eqb (eh_event item) (ef_event frame))
                       (eventHandlers this)).
    intros ls. revert s. induction ls as [|item r IH]; intros s; simpl.
    + rewrite app_nil_r. destruct s; reflexivity.
    + rewrite IH. unfold observe, set_log. simpl. rewrite <- app_assoc. reflexivity.
  - rewrite app_nil_r. destruct s; reflexivity.
Qed.

Lemma emit_event_log (frame : EventFrame) (s : State) :
  emit_event frame s
  = set_log (log s ++ flat_map (delivered_by s frame) (on_event s)) s.
Proof.
  unfold emit_event. generalize (on_event s). intros cs.
  assert (G : forall s0, contexts s0 = contexts s ->
              fold_left (fun s c => rootEventHandler c frame s) cs s0
              = set_log (log s0 ++ flat_map (delivered_by s frame) cs) s0).
  { induction cs as [|c cs IH]; intros s0 E; simpl.
    - rewrite app_nil_r. destruct s0; reflexivity.
    - rewrite IH by (rewrite rootEventHandler_log; exact E).
      rewrite rootEventHandler_log. unfold set_log. simpl.
      rewrite <- app_assoc.
      replace (delivered_by s0 frame c) with (delivered_by s frame c)
        by (unfold delivered_by, get_context; now rewrite E).
      reflexivity. }
  now apply G.
Qed.


Lemma remove_first_absent {A : Type} (p : A -> bool) (l : list A) :
  find p l = None -> remove_first p l = l.
Proof.
  induction l as [|y r IH]; simpl; auto.
  destruct (p y); [discriminate | intros H; now rewrite IH].
Qed.

Lemma get_put_context_same (s : State) (c : CtxRef) (this x : Context) :
  get_context s c = Some this -> get_context (put_context c x s) c = Some x.
Proof.
  unfold get_context, put_context. simpl. apply nth_error_assign_same.
Qed.

Lemma get_put_context_other (s : State) (c c' : CtxRef) (x : Context) :
  c <> c' -> get_context (put_context c x s) c' = get_context s c'.
Proof.
  unfold get_context, put_context. simpl. apply nth_error_assign_other.
Qed.

Lemma addListener_spec :
  forall (s : State) (c : CtxRef) (this : Context) (src ev : string) (l : ListenerRef),
    get_context s c = Some this ->
    List.length (registrations src ev l this) <= 1 ->
    exists this1,
      get_context (addListener c src ev l s) c = Some this1
      /\ ctx_name this1 = ctx_name this
      /\ List.length (registrations src ev l this1) = 1
      /\ on_event (addListener c src ev l s) = on_event s
      /\ log (addListener c src ev l s) = log s
      /\ forall c', c <> c' ->
           get_context (addListener c src ev l s) c' = get_context s c'.
Proof.
  intros s c this src ev l Hc Hle. unfold addListener. rewrite Hc.
  unfold getListenerIndex.
  set (q := fun item => String.eqb (eh_component item) src
                        && String.eqb (eh_event item) ev
                        && Nat.eqb (eh_listener item) l) in *.
  destruct (find q (eventHandlers this)) as [a|] eqn:F.
  - rewrite (findIndex_found _ _ _ F). simpl. exists this.
    pose proof (find_some_filter _ _ _ F) as G. fold q in Hle.
    unfold registrations in *. fold q in Hle |- *.
    repeat split; auto. lia.
  - rewrite (findIndex_absent _ _ F). simpl. eexists. split.
    + eapply get_put_context_same. exact Hc.
    + unfold registrations. simpl. fold q.
      rewrite filter_app, (find_none_filter _ _ F). simpl.
      subst q. simpl. rewrite !String.eqb_refl, Nat.eqb_refl. simpl.
      repeat split; auto.
      intros c' N. now apply get_put_context_other.
Qed.

Lemma removeListener_spec :
  forall (s : State) (c : CtxRef) (this : Context) (src ev : string) (l : ListenerRef),
    get_context s c = Some this ->
    exists this1,
      get_context (removeListener c src ev l s) c = Some this1
      /\ ctx_name this1 = ctx_name this
      /\ eventHandlers this1
         = remove_first (fun item => String.eqb (eh_component item) src
                                     && String.eqb (eh_event item) ev
                                     && Nat.eqb (eh_listener item) l)
                        (eventHandlers this)
      /\ apis this1 = apis this
      /\ on_event (removeListener c src ev l s) = on_event s
      /\ log (removeListener c src ev l s) = log s
      /\ forall c', c <> c' ->
           get_context (removeListener c src ev l s) c' = get_context s c'.
Proof.
  intros s c this src ev l Hc. unfold removeListener. rewrite Hc.
  unfold getListenerIndex. cbv zeta.
  set (q := fun item => String.eqb (eh_component item) src
                        && String.eqb (eh_event item) ev
                        && Nat.eqb (eh_listener item) l).
  destruct (find q (eventHandlers this)) as [a|] eqn:F.
  - rewrite (findIndex_found _ _ _ F). eexists. split.
    + eapply get_put_context_same. exact Hc.
    + simpl. rewrite (splice_findIndex _ _ _ F).
      repeat split; auto.
      intros c' N. now apply get_put_context_other.
  - rewrite (findIndex_absent _ _ F). exists this.
    rewrite (remove_first_absent _ _ F). repeat split; auto.
Qed.

Lemma send_spec :
  forall (s : State) (c : CtxRef) (this : Context) (ev : string) (v : value),
    get_context s c = Some this ->
    send c ev v s
    = set_log (log s
               ++ flat_map (delivered_by s {| ef_component := ctx_name this;
                                              ef_event := ev;
                                              ef_value := v |})
                           (on_event s)) s.
Proof.
  intros s c this ev v Hc. unfold send. rewrite Hc. apply emit_event_log.
Qed.




(** ** Call frames *)

Lemma set_jobs_log_nil (s : State) :
  set_jobs (jobs s ++ []) (set_log (log s ++ []) s) = s.
Proof. rewrite !app_nil_r. destruct s; reflexivity. Qed.

Lemma rootApiHandler_jobs (c : CtxRef) (frame : ApiCallFrame) (s : State) :
  rootApiHandler c frame s
  = set_jobs (jobs s ++ map (handler_job (now s) frame) (responder s frame c))
      (set_log (log s ++ map (handler_obs frame) (responder s frame c)) s).
Proof.
  unfold rootApiHandler, responder.
  destruct (get_context s c) as [this|]; [|now rewrite set_jobs_log_nil].
  destruct (negb (String.eqb (cf_component frame) (ctx_name this)));
    [now rewrite set_jobs_log_nil|].
  destruct (find _ (apis this)) as [api|]; [|now rewrite set_jobs_log_nil].
  reflexivity.
Qed.

Lemma emit_api_call_jobs (frame : ApiCallFrame) (s : State) :
  emit_api_call frame s
  = set_jobs (jobs s ++ map (handler_job (now s) frame) (responders s frame))
      (set_log (log s ++ map (handler_obs frame) (responders s frame)) s).
Proof.
  unfold emit_api_call, responders. generalize (on_api_call s). intros cs.
  assert (G : forall s0, contexts s0 = contexts s -> now s0 = now s ->
              fold_left (fun s c => rootApiHandler c frame s) cs s0
              = set_jobs (jobs s0 ++ map (handler_job (now s) frame)
                                         (flat_map (responder s frame) cs))
                  (set_log (log s0 ++ map (handler_obs frame)
                                          (flat_map (responder s frame) cs)) s0)).
  { induction cs as [|c cs IH]; intros s0 E T; simpl.
    - now rewrite set_jobs_log_nil.
    - rewrite IH by (rewrite rootApiHandler_jobs; simpl; assumption).
      rewrite rootApiHandler_jobs. unfold set_jobs, set_log. simpl.
      replace (responder s0 frame c) with (responder s frame c)
        by (unfold responder, get_context; now rewrite E).
      rewrite T, !map_app, <- !app_assoc. reflexivity. }
  now apply G.
Qed.

(** ** Result frames *)

Lemma same_but_calls_refl (s : State) : same_but_calls s s.
Proof. exists (calls s), (on_api_result s). split; [now destruct s | reflexivity]. Qed.

Lemma same_but_calls_trans (s1 s2 s3 : State) :
  same_but_calls s1 s2 -> same_but_calls s2 s3 -> same_but_calls s1 s3.
Proof.
  intros (cs & ls & -> & L) (cs' & ls' & -> & L').
  exists cs', ls'. split; [reflexivity|]. simpl in L'. congruence.
Qed.

Lemma listener_calls (k : CallRef) (f : ApiResultFrame) (s : State) :
  listener k f s = set_calls (calls (listener k f s)) s
  /\ List.length (calls (listener k f s)) = List.length (calls s).
Proof.
  unfold listener. destruct (nth_error (calls s) k) as [p|].
  - destruct (negb (Nat.eqb (rf_id f) (call_id p))).
    + split; [now destruct s | reflexivity].
    + unfold put_call. simpl. split; [reflexivity | apply assign_length].
  - split; [now destruct s | reflexivity].
Qed.

Lemma listener_other (k k' : CallRef) (f : ApiResultFrame) (s : State) :
  k' <> k -> nth_error (calls (listener k' f s)) k = nth_error (calls s) k.
Proof.
  intros N. unfold listener. destruct (nth_error (calls s) k') as [p|]; auto.
  destruct (negb (Nat.eqb (rf_id f) (call_id p))); auto.
  unfold put_call. simpl. now apply nth_error_assign_other.
Qed.

Lemma listener_mismatch (k : CallRef) (f : ApiResultFrame) (s : State) (p : CallState) :
  nth_error (calls s) k = Some p -> call_id p <> rf_id f -> listener k f s = s.
Proof.
  intros H N. unfold listener. rewrite H.
  destruct (Nat.eqb_spec (rf_id f) (call_id p)); [congruence | reflexivity].
Qed.

Lemma onceWrapper_same (k : CallRef) (f : ApiResultFrame) (s : State) :
  same_but_calls s (onceWrapper k f s).
Proof.
  unfold onceWrapper.
  destruct (listener_calls k f
              (set_on_api_result (emitter_removeListener k (on_api_result s)) s))
    as [E L].
  rewrite E. eexists _, _. split; [reflexivity | exact L].
Qed.

Lemma onceWrapper_listeners (k : CallRef) (f : ApiResultFrame) (s : State) :
  on_api_result (onceWrapper k f s) = emitter_removeListener k (on_api_result s).
Proof.
  unfold onceWrapper.
  destruct (listener_calls k f
              (set_on_api_result (emitter_removeListener k (on_api_result s)) s))
    as [E _].
  rewrite E. reflexivity.
Qed.

Lemma once_loop_same (f : ApiResultFrame) (ks : list CallRef) (s : State) :
  same_but_calls s (fold_left (fun s k => onceWrapper k f s) ks s).
Proof.
  revert s. induction ks as [|k ks IH]; intros s; simpl.
  - apply same_but_calls_refl.
  - eapply same_but_calls_trans; [apply onceWrapper_same | apply IH].
Qed.

Lemma emit_api_result_same (f : ApiResultFrame) (s : State) :
  same_but_calls (observe (ResultBroadcast f) s) (emit_api_result f s).
Proof. apply once_loop_same. Qed.

Lemma removeListener_perm (x : nat) (l : list nat) :
  In x l -> Permutation l (x :: emitter_removeListener x l).
Proof.
  induction l as [|y r IH]; simpl; intros H.
  - contradiction.
  - destruct (Nat.eqb x y && negb (existsb (Nat.eqb x) r)) eqn:E.
    + apply andb_true_iff in E as [E _]. apply Nat.eqb_eq in E. now subst.
    + assert (I : In x r).
      { destruct H as [->|I]; auto.
        rewrite Nat.eqb_refl in E. simpl in E. apply negb_false_iff in E.
        apply existsb_exists in E as (z & I & Ez).
        apply Nat.eqb_eq in Ez. now subst z. }
      rewrite perm_swap. constructor. now apply IH.
Qed.

(** Every listener of 'api-result' is a [once] wrapper, so a broadcast of
    a result frame leaves none registered, whatever the frame's id. *)
Lemma once_loop_consumes (f : ApiResultFrame) (ks : list CallRef) (s : State) :
  Permutation (on_api_result s) ks ->
  on_api_result (fold_left (fun s k => onceWrapper k f s) ks s) = [].
Proof.
  revert s. induction ks as [|k ks IH]; intros s P; simpl.
  - now apply Permutation_sym, Permutation_nil in P.
  - apply IH. rewrite onceWrapper_listeners.
    assert (I : In k (on_api_result s)).
    { eapply Permutation_in; [apply Permutation_sym; exact P | now left]. }
    apply removeListener_perm in I.
    apply Permutation_cons_inv with (a := k).
    now rewrite <- I.
Qed.

Lemma emit_api_result_consumes (f : ApiResultFrame) (s : State) :
  on_api_result (emit_api_result f s) = [].
Proof. unfold emit_api_result. now apply once_loop_consumes. Qed.

Lemma onceWrapper_other (k k' : CallRef) (f : ApiResultFrame) (s : State) :
  k' <> k -> nth_error (calls (onceWrapper k' f s)) k = nth_error (calls s) k.
Proof. intros N. unfold onceWrapper. now rewrite listener_other. Qed.

Lemma onceWrapper_mismatch (k k' : CallRef) (f : ApiResultFrame) (s : State)
      (p : CallState) :
  nth_error (calls s) k = Some p -> call_id p <> rf_id f ->
  nth_error (calls (onceWrapper k' f s)) k = Some p.
Proof.
  intros H N. destruct (Nat.eq_dec k' k) as [->|D].
  - unfold onceWrapper. now rewrite (listener_mismatch _ _ _ p).
  - now rewrite onceWrapper_other.
Qed.

Lemma once_loop_mismatch (f : ApiResultFrame) (ks : list CallRef) (s : State)
      (k : CallRef) (p : CallState) :
  nth_error (calls s) k = Some p -> call_id p <> rf_id f ->
  nth_error (calls (fold_left (fun s k => onceWrapper k f s) ks s)) k = Some p.
Proof.
  revert s. induction ks as [|k' ks IH]; intros s H N; simpl; auto.
  apply IH; auto. now apply onceWrapper_mismatch.
Qed.

Lemma emit_api_result_mismatch (f : ApiResultFrame) (s : State) (k : CallRef)
      (p : CallState) :
  nth_error (calls s) k = Some p -> call_id p <> rf_id f ->
  nth_error (calls (emit_api_result f s)) k = Some p.
Proof. intros H N. unfold emit_api_result. now apply once_loop_mismatch. Qed.

(** ** Concurrent calls *)

(** C1, as the code has it: while call B is pending with its listener
    registered, the result frame of another call A (a different
    correlation id) does not resolve B, but it does take B's listener
    out of the emitter, because [once] removes the wrapper at the first
    'api-result' whatever its id.  B's own result frame, broadcast next,
    finds no listener and B stays pending. *)
Theorem other_result_consumes_listener :
  forall (s : State) (fA fB : ApiResultFrame) (kB : CallRef) (pB : CallState),
    nth_error (calls s) kB = Some pB ->
    In kB (on_api_result s) ->
    slot pB = Pending ->
    call_id pB = rf_id fB ->
    rf_id fA <> rf_id fB ->
    ~ In kB (on_api_result (emit_api_result fA s))
    /\ slot_of (emit_api_result fA s) kB = Some Pending
    /\ slot_of (emit_api_result fB (emit_api_result fA s)) kB = Some Pending
    /\ In (ResultBroadcast fB) (log (emit_api_result fB (emit_api_result fA s))).
Proof.
  intros s fA fB kB pB Hp Hin Hs Hid Hne.
  assert (HA : nth_error (calls (emit_api_result fA s)) kB = Some pB).
  { apply emit_api_result_mismatch; [exact Hp | congruence]. }
  split; [now rewrite emit_api_result_consumes|].
  split; [unfold slot_of; now rewrite HA, <- Hs|].
  unfold emit_api_result at 1 3.
  rewrite emit_api_result_consumes. simpl.
  split.
  - unfold slot_of. simpl. now rewrite HA, <- Hs.
  - apply in_or_app. right. now left.
Qed.

(** ** Steps that leave the pending calls alone *)

Lemma quiet_refl (s : State) : quiet s s.
Proof.
  repeat split; auto; exists []; rewrite app_nil_r; auto.
Qed.

Lemma quiet_put_context (s : State) (c : CtxRef) (x : Context) :
  quiet s (put_context c x s).
Proof.
  repeat split; auto; exists []; simpl; rewrite app_nil_r; auto.
Qed.

Lemma quiet_use (component : Component) (s : State) : quiet s (use component s).
Proof.
  repeat split; auto; exists []; simpl; rewrite app_nil_r; auto.
Qed.

Lemma quiet_engine_start (s : State) : quiet s (engine_start s).
Proof.
  unfold engine_start. rewrite start_loop.
  repeat split; auto; eexists; simpl; (split; [reflexivity|]).
  - apply Forall_forall. intros x I. apply in_map_iff in I as (e & <- & _).
    eexists. reflexivity.
  - apply Forall_forall. intros o I. apply in_map_iff in I as (e & <- & _).
    discriminate.
Qed.

Lemma quiet_addListener (c : CtxRef) (src ev : string) (l : ListenerRef) (s : State) :
  quiet s (addListener c src ev l s).
Proof.
  unfold addListener. destruct (get_context s c); [|apply quiet_refl].
  destruct (negb _); [apply quiet_refl | apply quiet_put_context].
Qed.

Lemma quiet_removeListener (c : CtxRef) (src ev : string) (l : ListenerRef) (s : State) :
  quiet s (removeListener c src ev l s).
Proof.
  unfold removeListener. destruct (get_context s c); [|apply quiet_refl].
  cbv zeta. destruct (_ =? _)%Z; [apply quiet_refl | apply quiet_put_context].
Qed.

Lemma quiet_send (c : CtxRef) (ev : string) (v : value) (s : State) :
  quiet s (send c ev v s).
Proof.
  destruct (get_context s c) as [this|] eqn:E.
  - rewrite (send_spec _ _ _ ev v E).
    repeat split; auto; [exists []; simpl; rewrite app_nil_r; auto|].
    eexists. simpl. split; [reflexivity|].
    apply Forall_forall. intros o I. apply in_flat_map in I as (c' & _ & I).
    unfold delivered_by in I. destruct (get_context s c'); [|contradiction].
    apply in_map_iff in I as (item & <- & _). discriminate.
  - unfold send. rewrite E. apply quiet_refl.
Qed.

Lemma quiet_addEndpoint (c : CtxRef) (info : EndpointInfo) (h : Handler) (s : State) :
  quiet s (step s (AddEndpoint c info h)).
Proof.
  unfold step, exec, addEndpoint. destruct (get_context s c); [|apply quiet_refl].
  cbv zeta. destruct (negb _); [apply quiet_refl | apply quiet_put_context].
Qed.

Lemma quiet_removeEndpoint (c : CtxRef) (nm : string) (s : State) :
  quiet s (step s (RemoveEndpoint c nm)).
Proof.
  unfold step, exec, removeEndpoint. destruct (get_context s c); [|apply quiet_refl].
  cbv zeta. destruct (_ =? _)%Z; [apply quiet_refl | apply quiet_put_context].
Qed.

Lemma quiet_dispose (c : CtxRef) (s : State) : quiet s (dispose c s).
Proof.
  repeat split; auto; exists []; simpl; rewrite app_nil_r; auto.
Qed.

(** ** The shape of the other steps *)

Lemma nth_error_snoc {A : Type} (l : list A) (x : A) :
  nth_error (l ++ [x]) (List.length l) = Some x.
Proof. induction l; simpl; auto. Qed.

Lemma assign_snoc {A : Type} (l : list A) (x y : A) :
  assign (List.length l) y (l ++ [x]) = l ++ [y].
Proof. induction l; simpl; auto. now f_equal. Qed.

Lemma call_eq (component ep : string) (params0 : option Params)
      (timeout0 : option nat) (s : State) :
  call component ep params0 timeout0 s
  = (emit_api_call (call_frame s component ep params0)
       (call_registered s (timeout_of timeout0)),
     List.length (calls s)).
Proof.
  unfold call. cbv zeta. f_equal. simpl.
  rewrite nth_error_snoc. unfold put_call. simpl.
  rewrite assign_snoc. reflexivity.
Qed.


Lemma settle_cases (j : nat) (s : State) :
  settle j s = s
  \/ exists x, nth_error (jobs s) j = Some x
       /\ (settle j s = finish_job j x s
           \/ (exists err, settle j s = observe (ConsoleLog err) (finish_job j x s))
           \/ (exists c id after v this,
                 job_kind x = HandlerJob c id
                 /\ job_outcome x = Resolves after v
                 /\ settle j s
                    = emit_api_result {| rf_component := ctx_name this;
                                         rf_id := id;
                                         rf_value := v |} (finish_job j x s))).
Proof.
  unfold settle. destruct (nth_error (jobs s) j) as [x|] eqn:E; [|now left].
  destruct (negb (job_due (now s) x)); [now left|].
  right. exists x. split; [reflexivity|].
  destruct (job_outcome x) as [after v|after err|] eqn:O.
  - destruct (job_kind x) as [c id|c] eqn:K; [|now left].
    destruct (get_context (finish_job j x s) c) as [this|]; [|now left].
    right. right. exists c, id, after, v, this. auto.
  - right. left. exists err. reflexivity.
  - now left.
Qed.

(** ** Well-formed states *)

Lemma Forall_assign {A : Type} (P : A -> Prop) (i : nat) (x : A) (l : list A) :
  Forall P l -> P x -> Forall P (assign i x l).
Proof.
  revert i. induction l as [|y r IH]; intros i H Px; simpl.
  - destruct i; constructor.
  - inversion H; subst. destruct i; constructor; auto.
Qed.

Lemma Forall_nth_error {A : Type} (P : A -> Prop) (l : list A) (i : nat) (x : A) :
  Forall P l -> nth_error l i = Some x -> P x.
Proof.
  intros H E. eapply Forall_forall; [exact H|]. eapply nth_error_In; eauto.
Qed.

Lemma responders_spec (s : State) (frame : ApiCallFrame) (c : CtxRef) (api : Api) :
  In (c, api) (responders s frame) ->
  In c (on_api_call s)
  /\ exists this, get_context s c = Some this
       /\ ctx_name this = cf_component frame
       /\ find (fun item => String.eqb (endpoint item) (cf_endpoint frame)) (apis this)
          = Some api.
Proof.
  unfold responders. intros H. apply in_flat_map in H as (c' & I & H).
  unfold responder in H. destruct (get_context s c') as [this|] eqn:G; [|contradiction].
  destruct (String.eqb_spec (cf_component frame) (ctx_name this)) as [E|N];
    simpl in H; [|contradiction].
  destruct (find _ (apis this)) as [a|] eqn:F; [|contradiction].
  destruct H as [H|[]]. inversion H; subst. split; auto.
  exists this. auto.
Qed.

(** ** Calls that no handler answers *)


















(** ** The timeout *)








(** ** Each call is settled once *)


















(** ** A result frame that finds its listener *)

Lemma onceWrapper_resolved_stays (k k' : CallRef) (f : ApiResultFrame) (s : State)
      (p : CallState) :
  nth_error (calls s) k = Some p ->
  call_id p = rf_id f ->
  slot p = Resolved (rf_value f) ->
  exists p', nth_error (calls (onceWrapper k' f s)) k = Some p'
             /\ call_id p' = rf_id f
             /\ slot p' = Resolved (rf_value f).
Proof.
  intros Hp Hid Hs. destruct (Nat.eq_dec k' k) as [->|N].
  - unfold onceWrapper, listener. simpl. rewrite Hp, Hid, Nat.eqb_refl. simpl.
    eexists. split; [eapply nth_error_assign_same; exact Hp|].
    destruct (timeoutHandle p); simpl; rewrite Hs; auto.
  - exists p. rewrite onceWrapper_other; auto.
Qed.

Lemma onceWrapper_resolves (k : CallRef) (f : ApiResultFrame) (s : State)
      (p : CallState) :
  nth_error (calls s) k = Some p ->
  call_id p = rf_id f ->
  slot p = Pending ->
  exists p', nth_error (calls (onceWrapper k f s)) k = Some p'
             /\ call_id p' = rf_id f
             /\ slot p' = Resolved (rf_value f).
Proof.
  intros Hp Hid Hs.
  unfold onceWrapper, listener. simpl. rewrite Hp, Hid, Nat.eqb_refl. simpl.
  eexists. split; [eapply nth_error_assign_same; exact Hp|].
  destruct (timeoutHandle p); simpl; rewrite Hs; auto.
Qed.

Lemma once_loop_resolved_stays (k : CallRef) (f : ApiResultFrame)
      (ks : list CallRef) (s : State) (p : CallState) :
  nth_error (calls s) k = Some p ->
  call_id p = rf_id f ->
  slot p = Resolved (rf_value f) ->
  slot_of (fold_left (fun s k => onceWrapper k f s) ks s) k
  = Some (Resolved (rf_value f)).
Proof.
  revert s p. induction ks as [|k' ks IH]; intros s p Hp Hid Hs; simpl.
  - unfold slot_of. now rewrite Hp, <- Hs.
  - destruct (onceWrapper_resolved_stays k k' f s p Hp Hid Hs) as (p' & H1 & H2 & H3).
    eapply IH; eauto.
Qed.

Lemma once_loop_resolves (k : CallRef) (f : ApiResultFrame)
      (ks : list CallRef) (s : State) (p : CallState) :
  In k ks ->
  nth_error (calls s) k = Some p ->
  call_id p = rf_id f ->
  slot p = Pending ->
  slot_of (fold_left (fun s k => onceWrapper k f s) ks s) k
  = Some (Resolved (rf_value f)).
Proof.
  revert s. induction ks as [|k' ks IH]; intros s I Hp Hid Hs; simpl.
  - contradiction.
  - destruct (Nat.eq_dec k' k) as [->|N].
    + destruct (onceWrapper_resolves k f s p Hp Hid Hs) as (p' & H1 & H2 & H3).
      eapply once_loop_resolved_stays; eauto.
    + apply IH; auto.
      * destruct I; [congruence | assumption].
      * now rewrite onceWrapper_other.
Qed.

(** When the promise of a handler resolves while the caller's listener
    is still registered, the call is resolved with exactly the value that
    the handler resolved with. *)
Lemma settle_resolves_registered_call :
  forall (t : State) (j : nat) (x : Job) (c : CtxRef) (id : CorrId) (after : nat)
         (v : value) (this : Context) (k : CallRef) (p : CallState),
    nth_error (jobs t) j = Some x ->
    job_kind x = HandlerJob c id ->
    job_outcome x = Resolves after v ->
    job_due (now t) x = true ->
    get_context t c = Some this ->
    nth_error (calls t) k = Some p ->
    call_id p = id ->
    slot p = Pending ->
    In k (on_api_result t) ->
    slot_of (settle j t) k = Some (Resolved v).
Proof.
  intros t j x c id after v this k p Hj K O D G Hp Hid Hs I.
  unfold settle. rewrite Hj, D, O, K. simpl.
  unfold get_context in *. simpl. rewrite G.
  unfold emit_api_result. simpl.
  apply (once_loop_resolves k {| rf_component := ctx_name this; rf_id := id;
                                 rf_value := v |} _ _ p); auto.
Qed.

Lemma other_result_consumes_listener_witness :
  slot_of (emit_api_result
             {| rf_component := "users"; rf_id := 1; rf_value := example_user |}
             (emit_api_result
                {| rf_component := "users"; rf_id := 0; rf_value := example_user |}
                two_calls)) 1
  = Some Pending.
Proof.
  destruct (other_result_consumes_listener two_calls
              {| rf_component := "users"; rf_id := 0; rf_value := example_user |}
              {| rf_component := "users"; rf_id := 1; rf_value := example_user |}
              1
              {| call_id := 1; slot := Pending; timeoutHandle := Some (Armed 1000);
                 resolve_calls := 0; reject_calls := 0 |})
    as (_ & _ & H & _).
  - reflexivity.
  - right. left. reflexivity.
  - reflexivity.
  - reflexivity.
  - discriminate.
  - exact H.
Defined.

(** C2 on the run above: the handler of the second call resolved with the
    user at time 0, well within the timeout of 1000, and its result frame
    was broadcast; yet the second call is rejected with the timeout error
    at time 1000, because the result frame of the first call had consumed
    its listener. *)
Theorem second_concurrent_call_times_out :
  nth_error (jobs (run example_engine concurrent_run)) 3
  = Some {| job_kind := HandlerJob 1 1;
            job_outcome := Resolves 0 example_user;
            job_invoked := 0;
            job_done := true |}
  /\ In (ResultBroadcast {| rf_component := "users"; rf_id := 1;
                            rf_value := example_user |})
        (log (run example_engine concurrent_run))
  /\ slot_of (run example_engine concurrent_run) 0 = Some (Resolved example_user)
  /\ slot_of (run example_engine concurrent_run) 1 = Some (Rejected timeout_error)
  /\ now (run example_engine concurrent_run) = 1000.
Proof.
  vm_compute. repeat split; auto 10.
Qed.

(** A call to a component that does not exist is pending at 999 ms; the
    clock does not pass 1000 ms while the timer is due; the expiry of the
    timer rejects the call, and the clock moves on. *)
Example ghost_call_times_out :
  slot_of (run example_engine
             ([Call "ghost" "getUser" None None] ++ repeat Tick 999)) 0
  = Some Pending
  /\ now (run example_engine
            ([Call "ghost" "getUser" None None] ++ repeat Tick 1005)) = 1000
  /\ slot_of (run example_engine
                ([Call "ghost" "getUser" None None] ++ repeat Tick 1000
                 ++ [Expire 0])) 0
     = Some (Rejected timeout_error)
  /\ now (run example_engine
            ([Call "ghost" "getUser" None None] ++ repeat Tick 1000
             ++ [Expire 0; Tick])) = 1001.
Proof. vm_compute. repeat split. Qed.

(** The same call alone: the result frame finds the listener and the
    call is resolved with the handler's value. *)
Lemma single_call_resolves :
  slot_of (run example_engine [Call "users" "getUser" None None; Settle 2]) 0
  = Some (Resolved example_user).
Proof. reflexivity. Qed.

(** ** Two components of one name *)



Lemma in_assign_key {A : Type} (key : string) (x : A) (o : list (string * A))
      (e : string * A) :
  In e (assign_key key x o) -> e = (key, x) \/ In e o.
Proof.
  induction o as [|[k y] r IH]; simpl.
  - intros [<-|[]]. now left.
  - destruct (String.eqb_spec k key) as [->|N]; simpl.
    + intros [<-|I]; auto.
    + intros [<-|I]; auto. destruct (IH I); auto.
Qed.


Lemma nth_error_snoc2 {A : Type} (l : list A) (x y : A) :
  nth_error ((l ++ [x]) ++ [y]) (List.length l) = Some x.
Proof. induction l; simpl; auto. Qed.




(** ** Reachable heaps *)

Lemma NoDup_removeListener (x : nat) (l : list nat) :
  NoDup l -> NoDup (emitter_removeListener x l).
Proof.
  induction l as [|y r IH]; simpl; intros H; auto.
  inversion H as [|? ? Hy Hr]; subst.
  destruct (Nat.eqb x y && negb (existsb (Nat.eqb x) r)); auto.
  constructor; auto. intros I. apply Hy. eapply removeListener_incl; eauto.
Qed.

Lemma NoDup_snoc (x : nat) (l : list nat) :
  NoDup l -> ~ In x l -> NoDup (l ++ [x]).
Proof.
  induction l as [|y r IH]; simpl; intros H N.
  - repeat constructor. auto.
  - inversion H as [|? ? Hy Hr]; subst. constructor.
    + intros I. apply in_app_or in I as [I|[->|[]]]; auto.
    + apply IH; auto.
Qed.

Lemma Forall_removeListener (P : nat -> Prop) (x : nat) (l : list nat) :
  Forall P l -> Forall P (emitter_removeListener x l).
Proof.
  intros H. apply Forall_forall. intros y I.
  eapply Forall_forall; [exact H|]. eapply removeListener_incl; eauto.
Qed.

Lemma filter_remove_first_le {A : Type} (p q : A -> bool) (l : list A) :
  List.length (filter q (remove_first p l)) <= List.length (filter q l).
Proof.
  induction l as [|y r IH]; simpl; auto.
  destruct (p y); simpl.
  - destruct (q y); simpl; lia.
  - destruct (q y); simpl; lia.
Qed.

Lemma heap_wf_same (s s' : State) :
  contexts s' = contexts s -> entries s' = entries s ->
  on_event s' = on_event s -> on_api_call s' = on_api_call s ->
  heap_wf s -> heap_wf s'.
Proof.
  intros E1 E2 E3 E4 H. unfold heap_wf. now rewrite E1, E2, E3, E4.
Qed.

Lemma heap_wf_put_context (s : State) (c : CtxRef) (this : Context) :
  (forall src ev l, List.length (registrations src ev l this) <= 1) ->
  heap_wf s -> heap_wf (put_context c this s).
Proof.
  intros R (H1 & H2 & H3 & H4 & H5 & H6). unfold heap_wf. simpl.
  rewrite assign_length. repeat split; auto. now apply Forall_assign.
Qed.

Lemma heap_wf_use (component : Component) (s : State) :
  heap_wf s -> heap_wf (use component s).
Proof.
  intros (H1 & H2 & H3 & H4 & H5 & H6). unfold heap_wf. simpl.
  unfold emitter_addListener. rewrite length_app. simpl.
  assert (B : forall l, Forall (fun c => c < List.length (contexts s)) l ->
                        Forall (fun c => c < List.length (contexts s) + 1) l).
  { intros l F. eapply Forall_impl; [|exact F]. simpl. intros. lia. }
  assert (N : forall l, Forall (fun c => c < List.length (contexts s)) l ->
                        ~ In (List.length (contexts s)) l).
  { intros l F I. eapply Forall_forall in F; [|exact I]. simpl in F. lia. }
  split; [apply NoDup_snoc; auto|].
  split; [apply NoDup_snoc; auto|].
  split; [apply Forall_app; split; auto; constructor; auto; lia|].
  split; [apply Forall_app; split; auto; constructor; auto; lia|].
  split.
  - apply Forall_forall. intros e I. apply in_assign_key in I as [->|I].
    + simpl. lia.
    + eapply Forall_forall in H5; [|exact I]. simpl in H5. lia.
  - apply Forall_app. split; [exact H6|].
    constructor; [|constructor]. intros src ev l. simpl. lia.
Qed.

Lemma heap_wf_addListener (c : CtxRef) (src ev : string) (l : ListenerRef) (s : State) :
  heap_wf s -> heap_wf (addListener c src ev l s).
Proof.
  intros H. unfold addListener.
  destruct (get_context s c) as [this|] eqn:G; auto.
  unfold getListenerIndex.
  destruct (find (fun item => String.eqb (eh_component item) src
                              && String.eqb (eh_event item) ev
                              && Nat.eqb (eh_listener item) l)
                 (eventHandlers this)) as [a|] eqn:F.
  - rewrite (findIndex_found _ _ _ F). exact H.
  - rewrite (findIndex_absent _ _ F). simpl.
    apply heap_wf_put_context; auto.
    intros src' ev' l'. unfold registrations. simpl.
    rewrite filter_app, length_app. simpl.
    destruct H as (_ & _ & _ & _ & _ & H6).
    pose proof (Forall_nth_error _ _ _ _ H6 G src' ev' l') as R.
    unfold registrations in R.
    destruct (String.eqb_spec src src') as [<-|]; simpl; [|lia].
    destruct (String.eqb_spec ev ev') as [<-|]; simpl; [|lia].
    destruct (Nat.eqb_spec l l') as [<-|]; simpl; [|lia].
    rewrite (find_none_filter _ _ F). simpl. lia.
Qed.

Lemma heap_wf_removeListener (c : CtxRef) (src ev : string) (l : ListenerRef)
      (s : State) :
  heap_wf s -> heap_wf (removeListener c src ev l s).
Proof.
  intros H. unfold removeListener.
  destruct (get_context s c) as [this|] eqn:G; auto.
  unfold getListenerIndex. cbv zeta.
  destruct (find (fun item => String.eqb (eh_component item) src
                              && String.eqb (eh_event item) ev
                              && Nat.eqb (eh_listener item) l)
                 (eventHandlers this)) as [a|] eqn:F.
  - rewrite (findIndex_found _ _ _ F).
    apply heap_wf_put_context; auto.
    intros src' ev' l'. unfold registrations. simpl.
    rewrite (splice_findIndex _ _ _ F).
    destruct H as (_ & _ & _ & _ & _ & H6).
    pose proof (Forall_nth_error _ _ _ _ H6 G src' ev' l') as R.
    unfold registrations in R.
    eapply Nat.le_trans; [apply filter_remove_first_le | exact R].
  - rewrite (findIndex_absent _ _ F). exact H.
Qed.

Lemma heap_wf_addEndpoint (c : CtxRef) (info : EndpointInfo) (h : Handler) (s : State) :
  heap_wf s -> heap_wf (step s (AddEndpoint c info h)).
Proof.
  intros H. unfold step, exec, addEndpoint.
  destruct (get_context s c) as [this|] eqn:G; auto. cbv zeta.
  destruct (negb _); auto.
  apply heap_wf_put_context; auto.
  destruct H as (_ & _ & _ & _ & _ & H6).
  exact (Forall_nth_error _ _ _ _ H6 G).
Qed.

Lemma heap_wf_removeEndpoint (c : CtxRef) (nm : string) (s : State) :
  heap_wf s -> heap_wf (step s (RemoveEndpoint c nm)).
Proof.
  intros H. unfold step, exec, removeEndpoint.
  destruct (get_context s c) as [this|] eqn:G; auto. cbv zeta.
  destruct (_ =? _)%Z; auto.
  apply heap_wf_put_context; auto.
  destruct H as (_ & _ & _ & _ & _ & H6).
  exact (Forall_nth_error _ _ _ _ H6 G).
Qed.

Lemma heap_wf_dispose (c : CtxRef) (s : State) : heap_wf s -> heap_wf (dispose c s).
Proof.
  intros (H1 & H2 & H3 & H4 & H5 & H6). unfold heap_wf. simpl.
  repeat split; auto using NoDup_removeListener, Forall_removeListener.
Qed.

Lemma heap_wf_settle (j : nat) (s : State) : heap_wf s -> heap_wf (settle j s).
Proof.
  intros H.
  destruct (settle_cases j s) as [->|(x & Hj & [->|[(err & ->)|E]])]; auto.
  destruct E as (c & i & after & v & this & _ & _ & ->).
  destruct (emit_api_result_same
              {| rf_component := ctx_name this; rf_id := i; rf_value := v |}
              (finish_job j x s)) as (cs & ls & -> & _).
  exact H.
Qed.

Lemma heap_wf_step (s : State) (a : Action) : heap_wf s -> heap_wf (step s a).
Proof.
  intros H.
  destruct a as [comp| |c src ev l|c src ev l|c ev v|c info h|c nm
                |comp ep p0 t0|c|j|k|].
  - now apply heap_wf_use.
  - change (step s Start) with (engine_start s).
    unfold engine_start. rewrite start_loop. exact H.
  - now apply heap_wf_addListener.
  - now apply heap_wf_removeListener.
  - change (step s (Send c ev v)) with (send c ev v s).
    destruct (get_context s c) as [this|] eqn:G.
    + rewrite (send_spec _ _ _ ev v G). exact H.
    + unfold send. now rewrite G.
  - now apply heap_wf_addEndpoint.
  - now apply heap_wf_removeEndpoint.
  - change (step s (Call comp ep p0 t0)) with (fst (call comp ep p0 t0 s)).
    rewrite call_eq, emit_api_call_jobs. exact H.
  - now apply heap_wf_dispose.
  - now apply heap_wf_settle.
  - change (step s (Expire k)) with (expire k s).
    unfold expire. destruct (nth_error (calls s) k) as [p|] eqn:E; auto.
    destruct (timer_due (now s) p); auto.
    unfold timeout_callback. simpl. rewrite E. exact H.
  - change (step s Tick) with (tick s).
    unfold tick. destruct (_ || _); auto.
Qed.

(** Every state that a run reaches from a new engine has a well-formed
    heap: a context that was not disposed is subscribed exactly once,
    and no registration of a listener is doubled. *)
Lemma heap_wf_reachable (acts : list Action) : heap_wf (run new_engine acts).
Proof.
  assert (G : forall s, heap_wf s -> heap_wf (run s acts)).
  { induction acts as [|a acts IH]; intros s H; simpl; auto.
    apply IH. now apply heap_wf_step. }
  apply G. repeat split; constructor.
Qed.

(** * Further properties of the code *)

(** ** Removing endpoints *)

Lemma assign_assign {A : Type} (i : nat) (x y : A) (l : list A) :
  assign i x (assign i y l) = assign i x l.
Proof.
  revert i. induction l as [|z r IH]; intros [|j]; simpl; auto.
  now rewrite IH.
Qed.

Lemma assign_same {A : Type} (i : nat) (x : A) (l : list A) :
  nth_error l i = Some x -> assign i x l = l.
Proof.
  revert i. induction l as [|z r IH]; intros [|j] H; simpl in *; auto.
  - congruence.
  - now rewrite IH.
Qed.

Lemma set_contexts_same (s : State) : set_contexts (contexts s) s = s.
Proof. now destruct s. Qed.

Lemma remove_first_snoc {A : Type} (p : A -> bool) (l : list A) (x : A) :
  find p l = None -> p x = true -> remove_first p (l ++ [x]) = l.
Proof.
  induction l as [|y r IH]; simpl; intros F Px.
  - now rewrite Px.
  - destruct (p y); [discriminate|]. now rewrite IH.
Qed.

Lemma find_snoc {A : Type} (p : A -> bool) (l : list A) (x : A) :
  find p l = None -> p x = true -> find p (l ++ [x]) = Some x.
Proof.
  intros F Px. rewrite (find_app_absent _ _ _ F). simpl. now rewrite Px.
Qed.

(** X1: [removeEndpoint] with a name that is not registered on the
    context throws the not-found error and changes nothing. *)
Theorem removeEndpoint_missing_throws :
  forall (s : State) (c : CtxRef) (this : Context) (nm : string),
    get_context s c = Some this ->
    find (fun item => String.eqb (endpoint item) nm) (apis this) = None ->
    removeEndpoint c nm s = Throw (VError "endpoint is not found.")
    /\ step s (RemoveEndpoint c nm) = s.
Proof.
  intros s c this nm G F.
  assert (T : removeEndpoint c nm s = Throw (VError "endpoint is not found.")).
  { unfold removeEndpoint. rewrite G. cbv zeta.
    now rewrite (findIndex_absent _ _ F). }
  split; [exact T|]. unfold step, exec. now rewrite T.
Qed.

Lemma removeEndpoint_missing_throws_witness :
  removeEndpoint 1 "deleteUser" example_engine
  = Throw (VError "endpoint is not found.").
Proof.
  exact (proj1 (removeEndpoint_missing_throws example_engine 1
                  {| ctx_name := "users"; eventHandlers := [];
                     apis := [{| endpoint := "getUser"; handler := getUser |}] |}
                  "deleteUser" eq_refl eq_refl)).
Defined.

(** X2: registering an endpoint under a name that the context does not
    have and then removing that name gives back the state before the
    registration, whatever else the context and the engine hold. *)
Theorem addEndpoint_removeEndpoint_roundtrip :
  forall (s : State) (c : CtxRef) (this : Context) (info : EndpointInfo)
         (h : Handler),
    get_context s c = Some this ->
    find (fun item => String.eqb (endpoint item) (info_name info)) (apis this)
    = None ->
    exists s1,
      addEndpoint c info h s = Ok s1
      /\ removeEndpoint c (info_name info) s1 = Ok s.
Proof.
  intros s c this info h G F. eexists. split.
  - unfold addEndpoint. rewrite G. cbv zeta.
    rewrite (findIndex_absent _ _ F). reflexivity.
  - unfold removeEndpoint.
    rewrite (get_put_context_same s c this _ G). cbv zeta. simpl.
    assert (Q : String.eqb (endpoint {| endpoint := info_name info; handler := h |})
                           (info_name info) = true)
      by (simpl; apply String.eqb_refl).
    pose proof (find_snoc (fun item => String.eqb (endpoint item) (info_name info))
                  (apis this) _ F Q) as F1.
    rewrite (findIndex_found _ _ _ F1), (splice_findIndex _ _ _ F1).
    rewrite (remove_first_snoc _ _ _ F Q).
    unfold put_context. simpl. rewrite assign_assign.
    replace {| ctx_name := ctx_name this; eventHandlers := eventHandlers this;
               apis := apis this |} with this by now destruct this.
    rewrite (assign_same _ _ _ G).
    f_equal. now destruct s.
Qed.

Lemma addEndpoint_removeEndpoint_roundtrip_witness :
  exists s1,
    addEndpoint 0 getUser_info getUser example_engine = Ok s1
    /\ removeEndpoint 0 "getUser" s1 = Ok example_engine.
Proof.
  exact (addEndpoint_removeEndpoint_roundtrip example_engine 0
           {| ctx_name := "notes"; eventHandlers := []; apis := [] |}
           getUser_info getUser eq_refl eq_refl).
Defined.

Lemma find_remove_first_other {A : Type} (p q : A -> bool) (l : list A) :
  (forall x, p x = true -> q x = false) ->
  find q (remove_first p l) = find q l.
Proof.
  intros D. induction l as [|y r IH]; simpl; auto.
  destruct (p y) eqn:P; simpl.
  - now rewrite (D y P).
  - now rewrite IH.
Qed.

Lemma find_name_absent (nm : string) (l : list Api) :
  ~ In nm (map endpoint l) ->
  find (fun item => String.eqb (endpoint item) nm) l = None.
Proof.
  induction l as [|y r IH]; simpl; intros N; auto.
  destruct (String.eqb_spec (endpoint y) nm) as [E|D].
  - exfalso. apply N. now left.
  - apply IH. intros I. apply N. now right.
Qed.

Lemma find_name_none_absent (nm : string) (l : list Api) :
  find (fun item => String.eqb (endpoint item) nm) l = None ->
  ~ In nm (map endpoint l).
Proof.
  induction l as [|y r IH]; simpl; intros F; auto.
  destruct (String.eqb_spec (endpoint y) nm) as [E|D]; [discriminate|].
  intros [E|I]; [congruence | now apply IH].
Qed.

Lemma find_remove_first_same (nm : string) (l : list Api) :
  NoDup (map endpoint l) ->
  find (fun item => String.eqb (endpoint item) nm)
       (remove_first (fun item => String.eqb (endpoint item) nm) l) = None.
Proof.
  induction l as [|y r IH]; simpl; intros N; auto.
  inversion N as [|? ? Hy Hr]; subst.
  destruct (String.eqb_spec (endpoint y) nm) as [E|D]; simpl.
  - apply find_name_absent. now rewrite <- E.
  - destruct (String.eqb_spec (endpoint y) nm); [congruence|]. now apply IH.
Qed.

Lemma remove_first_incl {A : Type} (p : A -> bool) (l : list A) (x : A) :
  In x (remove_first p l) -> In x l.
Proof.
  induction l as [|y r IH]; simpl; auto.
  destruct (p y); simpl; intuition.
Qed.

Lemma NoDup_map_remove_first {A B : Type} (f : A -> B) (p : A -> bool) (l : list A) :
  NoDup (map f l) -> NoDup (map f (remove_first p l)).
Proof.
  induction l as [|y r IH]; simpl; intros N; auto.
  inversion N as [|? ? Hy Hr]; subst.
  destruct (p y); simpl; auto.
  constructor; auto. intros I. apply Hy.
  apply in_map_iff in I as (z & E & I). apply in_map_iff.
  exists z. split; auto. eapply remove_first_incl; eauto.
Qed.

(** X3: [removeEndpoint] of a registered name succeeds and removes
    exactly that endpoint: on a context whose endpoint names are
    distinct, the name is found no more, every other name finds the
    handler it found before, and the context's name and listeners are as
    they were. *)
Theorem removeEndpoint_removes_exactly :
  forall (s : State) (c : CtxRef) (this : Context) (nm : string) (api : Api),
    get_context s c = Some this ->
    NoDup (map endpoint (apis this)) ->
    find (fun item => String.eqb (endpoint item) nm) (apis this) = Some api ->
    exists s' this',
      removeEndpoint c nm s = Ok s'
      /\ get_context s' c = Some this'
      /\ find (fun item => String.eqb (endpoint item) nm) (apis this') = None
      /\ (forall nm', nm' <> nm ->
            find (fun item => String.eqb (endpoint item) nm') (apis this')
            = find (fun item => String.eqb (endpoint item) nm') (apis this))
      /\ ctx_name this' = ctx_name this
      /\ eventHandlers this' = eventHandlers this
      /\ forall c', c <> c' -> get_context s' c' = get_context s c'.
Proof.
  intros s c this nm api G N F. eexists. eexists. split.
  - unfold removeEndpoint. rewrite G. cbv zeta.
    rewrite (findIndex_found _ _ _ F). reflexivity.
  - split; [eapply get_put_context_same; exact G|]. simpl.
    rewrite (splice_findIndex _ _ _ F).
    split; [now apply find_remove_first_same|].
    split.
    + intros nm' D. apply find_remove_first_other.
      intros x Px. apply String.eqb_eq in Px. apply String.eqb_neq. congruence.
    + repeat split; auto. intros c' D. now apply get_put_context_other.
Qed.

Lemma removeEndpoint_removes_exactly_witness :
  exists s' this',
    removeEndpoint 1 "getUser" example_engine = Ok s'
    /\ get_context s' 1 = Some this'
    /\ find (fun item => String.eqb (endpoint item) "getUser") (apis this') = None.
Proof.
  destruct (removeEndpoint_removes_exactly example_engine 1
              {| ctx_name := "users"; eventHandlers := [];
                 apis := [{| endpoint := "getUser"; handler := getUser |}] |}
              "getUser" {| endpoint := "getUser"; handler := getUser |}
              eq_refl)
    as (s' & this' & R & G & F & _).
  - simpl. constructor; [intros [] | constructor].
  - reflexivity.
  - exists s', this'. auto.
Defined.

(** ** Endpoint names stay distinct *)

Lemma NoDup_snoc_gen {A : Type} (x : A) (l : list A) :
  NoDup l -> ~ In x l -> NoDup (l ++ [x]).
Proof.
  induction l as [|y r IH]; simpl; intros H N.
  - repeat constructor. auto.
  - inversion H as [|? ? Hy Hr]; subst. constructor.
    + intros I. apply in_app_or in I as [I|[->|[]]]; auto.
    + apply IH; auto.
Qed.

Lemma apis_wf_put_context (s : State) (c : CtxRef) (this : Context) :
  NoDup (map endpoint (apis this)) -> apis_wf s -> apis_wf (put_context c this s).
Proof.
  intros N H. unfold apis_wf. simpl. now apply Forall_assign.
Qed.

Lemma apis_wf_step (s : State) (a : Action) : apis_wf s -> apis_wf (step s a).
Proof.
  intros H.
  destruct a as [comp| |c src ev l|c src ev l|c ev v|c info h|c nm
                |comp ep p0 t0|c|j|k|].
  - unfold apis_wf. simpl. apply Forall_app. split; auto.
    constructor; [constructor | constructor].
  - change (step s Start) with (engine_start s).
    unfold engine_start. rewrite start_loop. exact H.
  - change (step s (AddListener c src ev l)) with (addListener c src ev l s).
    unfold addListener. destruct (get_context s c) as [this|] eqn:G; auto.
    destruct (negb _); auto. apply apis_wf_put_context; auto.
    exact (Forall_nth_error _ _ _ _ H G).
  - change (step s (RemoveListener c src ev l)) with (removeListener c src ev l s).
    unfold removeListener. destruct (get_context s c) as [this|] eqn:G; auto.
    cbv zeta. destruct (_ =? _)%Z; auto. apply apis_wf_put_context; auto.
    exact (Forall_nth_error _ _ _ _ H G).
  - change (step s (Send c ev v)) with (send c ev v s).
    destruct (get_context s c) as [this|] eqn:G.
    + rewrite (send_spec _ _ _ ev v G). exact H.
    + unfold send. now rewrite G.
  - unfold step, exec, addEndpoint.
    destruct (get_context s c) as [this|] eqn:G; auto. cbv zeta.
    destruct (find (fun item => String.eqb (endpoint item) (info_name info))
                   (apis this)) as [a|] eqn:F.
    + now rewrite (findIndex_found _ _ _ F).
    + rewrite (findIndex_absent _ _ F). simpl.
      apply apis_wf_put_context; auto. simpl.
      rewrite map_app. simpl. apply NoDup_snoc_gen.
      * exact (Forall_nth_error _ _ _ _ H G).
      * now apply find_name_none_absent.
  - unfold step, exec, removeEndpoint.
    destruct (get_context s c) as [this|] eqn:G; auto. cbv zeta.
    destruct (find (fun item => String.eqb (endpoint item) nm) (apis this))
      as [a|] eqn:F.
    + rewrite (findIndex_found _ _ _ F), (splice_findIndex _ _ _ F).
      apply apis_wf_put_context; auto. simpl.
      apply NoDup_map_remove_first.
      exact (Forall_nth_error _ _ _ _ H G).
    + now rewrite (findIndex_absent _ _ F).
  - change (step s (Call comp ep p0 t0)) with (fst (call comp ep p0 t0 s)).
    rewrite call_eq, emit_api_call_jobs. exact H.
  - exact H.
  - change (step s (Settle j)) with (settle j s).
    destruct (settle_cases j s) as [->|(x & Hj & [->|[(err & ->)|E]])]; auto.
    destruct E as (c & i & after & v & this & _ & _ & ->).
    destruct (emit_api_result_same
                {| rf_component := ctx_name this; rf_id := i; rf_value := v |}
                (finish_job j x s)) as (cs & ls & -> & _).
    exact H.
  - change (step s (Expire k)) with (expire k s).
    unfold expire. destruct (nth_error (calls s) k) as [p|] eqn:E; auto.
    destruct (timer_due (now s) p); auto.
    unfold timeout_callback. simpl. rewrite E. exact H.
  - change (step s Tick) with (tick s).
    unfold tick. destruct (_ || _); auto.
Qed.

Lemma apis_wf_run (acts : list Action) (s : State) :
  apis_wf s -> apis_wf (run s acts).
Proof.
  revert s. induction acts as [|a acts IH]; intros s H; simpl; auto.
  apply IH. now apply apis_wf_step.
Qed.

(** X4: in every state that a run reaches from a new engine, no context
    has two endpoints of one name: [addEndpoint] refuses a name that is
    taken, and no other operation adds an endpoint. *)
Theorem endpoint_names_distinct :
  forall (acts : list Action) (c : CtxRef) (this : Context),
    get_context (run new_engine acts) c = Some this ->
    NoDup (map endpoint (apis this)).
Proof.
  intros acts c this G.
  assert (W : apis_wf (run new_engine acts))
    by (apply apis_wf_run; constructor).
  exact (Forall_nth_error _ _ _ _ W G).
Qed.

Lemma endpoint_names_distinct_witness :
  NoDup (map endpoint [{| endpoint := "getUser"; handler := getUser |}]).
Proof.
  exact (endpoint_names_distinct
           [Use NotesComponent; Use UsersComponent; Start; Settle 1;
            AddEndpoint 1 getUser_info getUser;
            AddEndpoint 1 getUser_info throwing_handler]
           1
           {| ctx_name := "users"; eventHandlers := [];
              apis := [{| endpoint := "getUser"; handler := getUser |}] |}
           eq_refl).
Defined.

(** ** Listener registration *)

(** X5: [addListener] is idempotent: registering the same (component,
    event, listener) a second time changes nothing, on every state. *)
Theorem addListener_idempotent :
  forall (s : State) (c : CtxRef) (src ev : string) (l : ListenerRef),
    addListener c src ev l (addListener c src ev l s) = addListener c src ev l s.
Proof.
  intros s c src ev l.
  set (q := fun item => String.eqb (eh_component item) src
                        && String.eqb (eh_event item) ev
                        && Nat.eqb (eh_listener item) l).
  destruct (get_context s c) as [this|] eqn:G.
  - destruct (find q (eventHandlers this)) as [a|] eqn:F.
    + assert (E : addListener c src ev l s = s).
      { unfold addListener. rewrite G. unfold getListenerIndex. fold q.
        now rewrite (findIndex_found _ _ _ F). }
      now rewrite !E.
    + set (item := {| eh_component := src; eh_event := ev; eh_listener := l |}).
      set (this1 := {| ctx_name := ctx_name this;
                       eventHandlers := eventHandlers this ++ [item];
                       apis := apis this |}).
      assert (E : addListener c src ev l s = put_context c this1 s).
      { unfold addListener. rewrite G. unfold getListenerIndex. fold q.
        now rewrite (findIndex_absent _ _ F). }
      rewrite E. unfold addListener.
      rewrite (get_put_context_same s c this this1 G).
      unfold getListenerIndex. fold q.
      assert (Q : q item = true).
      { unfold q, item. simpl. now rewrite !String.eqb_refl, Nat.eqb_refl. }
      assert (F1 : find q (eventHandlers this1) = Some item)
        by (apply find_snoc; assumption).
      now rewrite (findIndex_found _ _ _ F1).
  - assert (E : addListener c src ev l s = s)
      by (unfold addListener; now rewrite G).
    now rewrite !E.
Qed.

Lemma filter_remove_first_other {A : Type} (p q : A -> bool) (l : list A) :
  (forall x, p x = true -> q x = false) ->
  filter q (remove_first p l) = filter q l.
Proof.
  intros D. induction l as [|y r IH]; simpl; auto.
  destruct (p y) eqn:P; simpl.
  - now rewrite (D y P).
  - now rewrite IH.
Qed.

Lemma triple_mismatch (src ev src' ev' : string) (l l' : ListenerRef)
      (x : EventHandler) :
  (src', ev', l') <> (src, ev, l) ->
  String.eqb (eh_component x) src && String.eqb (eh_event x) ev
  && Nat.eqb (eh_listener x) l = true ->
  String.eqb (eh_component x) src' && String.eqb (eh_event x) ev'
  && Nat.eqb (eh_listener x) l' = false.
Proof.
  intros D H. apply andb_true_iff in H as [H H3].
  apply andb_true_iff in H as [H1 H2].
  apply String.eqb_eq in H1, H2. apply Nat.eqb_eq in H3.
  destruct (String.eqb_spec (eh_component x) src'); simpl; auto.
  destruct (String.eqb_spec (eh_event x) ev'); simpl; auto.
  apply Nat.eqb_neq. intros E. apply D. congruence.
Qed.

(** X6: [addListener] and [removeListener] for one (component, event,
    listener) leave every other registration of the context as it is:
    the registrations of a different triple are the same list before and
    after, and the other contexts are untouched. *)
Theorem listener_registrations_independent :
  forall (s : State) (c : CtxRef) (this : Context) (src ev src' ev' : string)
         (l l' : ListenerRef),
    get_context s c = Some this ->
    (src', ev', l') <> (src, ev, l) ->
    option_map (registrations src' ev' l') (get_context (addListener c src ev l s) c)
    = Some (registrations src' ev' l' this)
    /\ option_map (registrations src' ev' l')
                  (get_context (removeListener c src ev l s) c)
       = Some (registrations src' ev' l' this)
    /\ (forall c', c <> c' ->
          get_context (addListener c src ev l s) c' = get_context s c'
          /\ get_context (removeListener c src ev l s) c' = get_context s c').
Proof.
  intros s c this src ev src' ev' l l' G D.
  assert (M : forall x,
             String.eqb (eh_component x) src && String.eqb (eh_event x) ev
             && Nat.eqb (eh_listener x) l = true ->
             String.eqb (eh_component x) src' && String.eqb (eh_event x) ev'
             && Nat.eqb (eh_listener x) l' = false)
    by (intros x; now apply triple_mismatch).
  split; [|split].
  - unfold addListener. rewrite G. destruct (negb _).
    + now rewrite G.
    + rewrite (get_put_context_same s c this _ G). simpl. f_equal.
      assert (Hm := M {| eh_component := src; eh_event := ev; eh_listener := l |}).
      simpl in Hm. rewrite !String.eqb_refl, Nat.eqb_refl in Hm.
      specialize (Hm eq_refl).
      unfold registrations. simpl. rewrite filter_app. simpl.
      rewrite Hm. apply app_nil_r.
  - destruct (removeListener_spec s c this src ev l G)
      as (this1 & G1 & _ & H1 & _).
    rewrite G1. simpl. f_equal. unfold registrations. rewrite H1.
    now apply filter_remove_first_other.
  - intros c' N. split.
    + destruct (Nat.le_gt_cases (List.length (registrations src ev l this)) 1)
        as [L|L].
      * destruct (addListener_spec s c this src ev l G L) as (_ & _ & _ & _ & _ & _ & O).
        now apply O.
      * unfold addListener. rewrite G. destruct (negb _); auto.
        now apply get_put_context_other.
    + destruct (removeListener_spec s c this src ev l G)
        as (_ & _ & _ & _ & _ & _ & _ & O).
      now apply O.
Qed.

Lemma listener_registrations_independent_witness :
  option_map (registrations "users" "changed" 8)
             (get_context (removeListener 0 "users" "changed" 7
                             (addListener 0 "users" "changed" 8 example_engine)) 0)
  = Some [{| eh_component := "users"; eh_event := "changed"; eh_listener := 8 |}].
Proof.
  refine (proj1 (proj2 (listener_registrations_independent
                          (addListener 0 "users" "changed" 8 example_engine) 0
                          {| ctx_name := "notes";
                             eventHandlers :=
                               [{| eh_component := "users"; eh_event := "changed";
                                   eh_listener := 8 |}];
                             apis := [] |}
                          "users" "changed" "users" "changed" 7 8 eq_refl _))).
  intros E. inversion E.
Defined.

(** ** Event delivery *)




(** ** Disposed contexts *)

Lemma NoDup_removeListener_absent (x : nat) (l : list nat) :
  NoDup l -> ~ In x (emitter_removeListener x l).
Proof.
  intros N. apply (count_occ_not_In Nat.eq_dec).
  rewrite removeListener_count_same.
  pose proof (proj1 (NoDup_count_occ Nat.eq_dec l) N x). lia.
Qed.

Lemma dispose_not_subscribed (s : State) (c : CtxRef) :
  heap_wf s ->
  ~ In c (on_event (dispose c s)) /\ ~ In c (on_api_call (dispose c s)).
Proof.
  intros (H1 & H2 & _). split; simpl; now apply NoDup_removeListener_absent.
Qed.

(** X8: on a well-formed heap, [dispose] leaves the context subscribed
    to neither 'event' nor 'api-call', so no call frame reaches its
    endpoints any more, and a second [dispose] changes nothing. *)
Theorem dispose_unsubscribes :
  forall (s : State) (c : CtxRef),
    heap_wf s ->
    ~ In c (on_event (dispose c s))
    /\ ~ In c (on_api_call (dispose c s))
    /\ (forall frame api, ~ In (c, api) (responders (dispose c s) frame))
    /\ dispose c (dispose c s) = dispose c s.
Proof.
  intros s c H. destruct (dispose_not_subscribed s c H) as [A1 A2].
  split; [exact A1|]. split; [exact A2|]. split.
  - intros frame api I. apply responders_spec in I as (I & _). now apply A2.
  - unfold dispose at 1.
    rewrite (removeListener_absent c _ A1), (removeListener_absent c _ A2).
    now destruct (dispose c s).
Qed.

Lemma dispose_unsubscribes_witness :
  dispose 1 (dispose 1 example_engine) = dispose 1 example_engine.
Proof.
  exact (proj2 (proj2 (proj2 (dispose_unsubscribes example_engine 1
                                (heap_wf_reachable _))))).
Defined.



(** ** What a call sets in motion *)


(** ** Result frames *)

(** X11: when a handler's promise resolves, the responding context
    broadcasts one result frame, with its own name, the correlation id
    of the call frame and the handler's value; the job is done, so the
    same promise never yields a second frame. *)
Theorem handler_result_is_broadcast_once :
  forall (t : State) (j : nat) (x : Job) (c : CtxRef) (id : CorrId)
         (after : nat) (v : value) (this : Context),
    nth_error (jobs t) j = Some x ->
    job_kind x = HandlerJob c id ->
    job_outcome x = Resolves after v ->
    job_due (now t) x = true ->
    get_context t c = Some this ->
    log (settle j t)
    = log t ++ [ResultBroadcast {| rf_component := ctx_name this;
                                   rf_id := id;
                                   rf_value := v |}]
    /\ contexts (settle j t) = contexts t
    /\ settle j (settle j t) = settle j t.
Proof.
  intros t j x c id after v this Hj K O D G.
  assert (E : settle j t
              = emit_api_result {| rf_component := ctx_name this; rf_id := id;
                                   rf_value := v |} (finish_job j x t)).
  { unfold settle. rewrite Hj, D, O, K. simpl.
    unfold get_context in *. simpl. now rewrite G. }
  destruct (emit_api_result_same
              {| rf_component := ctx_name this; rf_id := id; rf_value := v |}
              (finish_job j x t)) as (cs & ls & E' & _).
  rewrite E, E'. simpl. repeat split; auto.
  unfold settle at 1. simpl.
  rewrite (nth_error_assign_same _ _ _ _ Hj). reflexivity.
Qed.

Lemma handler_result_is_broadcast_once_witness :
  log (settle 2 (fst (call "users" "getUser" None None example_engine)))
  = log (fst (call "users" "getUser" None None example_engine))
    ++ [ResultBroadcast {| rf_component := "users"; rf_id := 0;
                           rf_value := example_user |}].
Proof.
  exact (proj1 (handler_result_is_broadcast_once
                  (fst (call "users" "getUser" None None example_engine)) 2
                  {| job_kind := HandlerJob 1 0;
                     job_outcome := Resolves 0 example_user;
                     job_invoked := 0; job_done := false |}
                  1 0 0 example_user
                  {| ctx_name := "users"; eventHandlers := [];
                     apis := [{| endpoint := "getUser"; handler := getUser |}] |}
                  eq_refl eq_refl eq_refl eq_refl eq_refl)).
Defined.

(** X12: the first result frame that carries the id of a pending call
    whose listener is registered wins: the call is resolved with its
    value, and a later frame, be it one with the same id from another
    context that answers to the same name and endpoint, does not change
    it. *)
Theorem first_result_wins :
  forall (s : State) (k : CallRef) (p : CallState) (f1 f2 : ApiResultFrame),
    nth_error (calls s) k = Some p ->
    slot p = Pending ->
    In k (on_api_result s) ->
    call_id p = rf_id f1 ->
    slot_of (emit_api_result f1 s) k = Some (Resolved (rf_value f1))
    /\ slot_of (emit_api_result f2 (emit_api_result f1 s)) k
       = Some (Resolved (rf_value f1)).
Proof.
  intros s k p f1 f2 Hp Hs I Hid.
  assert (R : slot_of (emit_api_result f1 s) k = Some (Resolved (rf_value f1))).
  { unfold emit_api_result. now apply once_loop_resolves with (p := p). }
  split; [exact R|].
  unfold emit_api_result at 1. rewrite emit_api_result_consumes. exact R.
Qed.

Lemma first_result_wins_witness :
  slot_of (emit_api_result
             {| rf_component := "users"; rf_id := 0; rf_value := VNull |}
             (emit_api_result
                {| rf_component := "users"; rf_id := 0; rf_value := example_user |}
                (fst (call "users" "getUser" None None example_engine)))) 0
  = Some (Resolved example_user).
Proof.
  refine (proj2 (first_result_wins
                   (fst (call "users" "getUser" None None example_engine)) 0
                   {| call_id := 0; slot := Pending;
                      timeoutHandle := Some (Armed 1000);
                      resolve_calls := 0; reject_calls := 0 |}
                   {| rf_component := "users"; rf_id := 0; rf_value := example_user |}
                   {| rf_component := "users"; rf_id := 0; rf_value := VNull |}
                   eq_refl eq_refl _ eq_refl)).
  left. reflexivity.
Defined.




(** ** Registration and start of the components *)






(** X15: in every state that a run reaches from a new engine, each
    context is subscribed at most once under 'event' and under
    'api-call', every subscription and every entry of the registry
    refers to a context of the heap, and no context holds the same
    (component, event, listener) registration twice. *)
Theorem reachable_heap_is_well_formed :
  forall acts : list Action,
    NoDup (on_event (run new_engine acts))
    /\ NoDup (on_api_call (run new_engine acts))
    /\ Forall (fun c => c < List.length (contexts (run new_engine acts)))
              (on_event (run new_engine acts) ++ on_api_call (run new_engine acts))
    /\ Forall (fun e => ctx (snd e) < List.length (contexts (run new_engine acts)))
              (entries (run new_engine acts))
    /\ Forall (fun this => forall src ev l,
                             List.length (registrations src ev l this) <= 1)
              (contexts (run new_engine acts)).
Proof.
  intros acts. destruct (heap_wf_reachable acts) as (H1 & H2 & H3 & H4 & H5 & H6).
  repeat split; auto. apply Forall_app. now split.
Qed.

(** ** Order of delivery *)



(** ** What the operations on contexts leave alone *)

Lemma quiet_context_operation (s : State) (a : Action) :
  context_operation a = true -> quiet s (step s a).
Proof.
  destruct a as [comp| |c src ev l|c src ev l|c ev v|c info h|c nm
                |comp ep p0 t0|c|j|k|]; simpl; intros H; try discriminate.
  - apply quiet_use.
  - apply quiet_engine_start.
  - apply quiet_addListener.
  - apply quiet_removeListener.
  - apply quiet_send.
  - apply quiet_addEndpoint.
  - apply quiet_removeEndpoint.
  - apply quiet_dispose.
Qed.

(** X17: registering components, starting the engine, adding and
    removing listeners and endpoints, sending events and disposing a
    context never touch a pending call: the promises, their timers, the
    listeners of 'api-result' and the clock are as they were, the
    handler promises in flight stay in flight, and no result frame is
    broadcast. *)
Theorem context_operations_leave_calls_alone :
  forall (s : State) (a : Action),
    context_operation a = true ->
    calls (step s a) = calls s
    /\ on_api_result (step s a) = on_api_result s
    /\ now (step s a) = now s
    /\ firstn (List.length (jobs s)) (jobs (step s a)) = jobs s
    /\ Forall (fun x => exists c, job_kind x = EntryJob c)
              (skipn (List.length (jobs s)) (jobs (step s a)))
    /\ filter (fun o => match o with ResultBroadcast _ => true | _ => false end)
              (log (step s a))
       = filter (fun o => match o with ResultBroadcast _ => true | _ => false end)
                (log s).
Proof.
  intros s a H.
  destruct (quiet_context_operation s a H)
    as (Ec & Er & En & _ & (js & Ej & Fj) & (lg & El & Fl)).
  repeat split; auto.
  - rewrite Ej, firstn_app, Nat.sub_diag, firstn_all. simpl. apply app_nil_r.
  - rewrite Ej, skipn_app, Nat.sub_diag, skipn_all. exact Fj.
  - rewrite El, filter_app.
    assert (Z : filter (fun o => match o with ResultBroadcast _ => true
                                         | _ => false end) lg = []).
    { clear El. induction lg as [|o lg IH]; simpl; auto.
      inversion Fl as [|? ? Ho Hl]; subst.
      destruct o; try (apply IH; assumption).
      now destruct (Ho f). }
    rewrite Z. apply app_nil_r.
Qed.

Lemma context_operations_leave_calls_alone_witness :
  calls (step two_calls (Dispose 1)) = calls two_calls.
Proof.
  exact (proj1 (context_operations_leave_calls_alone two_calls (Dispose 1) eq_refl)).
Defined.

(** ** Handlers in flight *)

(** X18: a handler that was invoked answers even when its context is
    disposed or its endpoint removed while the promise is pending: the
    result frame is broadcast all the same and resolves the call whose
    listener is registered. *)
Theorem in_flight_handler_still_answers :
  forall (t : State) (j : nat) (x : Job) (c : CtxRef) (id : CorrId)
         (after : nat) (v : value) (this : Context) (k : CallRef)
         (p : CallState) (nm : string),
    nth_error (jobs t) j = Some x ->
    job_kind x = HandlerJob c id ->
    job_outcome x = Resolves after v ->
    job_due (now t) x = true ->
    get_context t c = Some this ->
    nth_error (calls t) k = Some p ->
    call_id p = id ->
    slot p = Pending ->
    In k (on_api_result t) ->
    slot_of (settle j (step t (Dispose c))) k = Some (Resolved v)
    /\ slot_of (settle j (step t (RemoveEndpoint c nm))) k = Some (Resolved v).
Proof.
  intros t j x c id after v this k p nm Hj K O D G Hp Hid Hs I. split.
  - apply settle_resolves_registered_call
      with (x := x) (c := c) (id := id) (after := after) (this := this) (p := p);
      auto.
  - assert (Q : quiet t (step t (RemoveEndpoint c nm)))
      by apply quiet_removeEndpoint.
    destruct Q as (Ec & Er & En & _ & (js & Ej & _) & _).
    assert (G' : exists this', get_context (step t (RemoveEndpoint c nm)) c
                               = Some this').
    { unfold step, exec, removeEndpoint. rewrite G. cbv zeta.
      destruct (_ =? _)%Z; [eauto|].
      eexists. eapply get_put_context_same. exact G. }
    destruct G' as (this' & G').
    apply settle_resolves_registered_call
      with (x := x) (c := c) (id := id) (after := after) (this := this') (p := p);
      auto.
    + rewrite Ej. rewrite nth_error_app1; auto.
      apply nth_error_Some. congruence.
    + now rewrite En.
    + now rewrite Ec.
    + now rewrite Er.
Qed.

Lemma in_flight_handler_still_answers_witness :
  slot_of (settle 2 (step (fst (call "users" "getUser" None None example_engine))
                          (Dispose 1))) 0
  = Some (Resolved example_user).
Proof.
  refine (proj1 (in_flight_handler_still_answers
                   (fst (call "users" "getUser" None None example_engine)) 2
                   {| job_kind := HandlerJob 1 0;
                      job_outcome := Resolves 0 example_user;
                      job_invoked := 0; job_done := false |}
                   1 0 0 example_user
                   {| ctx_name := "users"; eventHandlers := [];
                      apis := [{| endpoint := "getUser"; handler := getUser |}] |}
                   0
                   {| call_id := 0; slot := Pending;
                      timeoutHandle := Some (Armed 1000);
                      resolve_calls := 0; reject_calls := 0 |}
                   "getUser"
                   eq_refl eq_refl eq_refl eq_refl eq_refl eq_refl eq_refl eq_refl _)).
  left. reflexivity.
Defined.
